(** * poi_scraper: the crawl driver [PoiManager] (src/poi_scraper/poi_manager.py)

    A shallow embedding of [PoiManager]: the frontier (a priority queue of
    scored URLs), the visited set, the append-only link log, the POI registry
    guarded by the validator, and the [process] loop that drives an external
    scraper.

    Conventions.
    - Python [float] is Rocq's primitive binary64 [float]; the literals of the
      source are the same literals here and denote the same doubles.
    - A raising call has the outcome [Exn] when the exception is an instance
      of [Exception] and [BaseExn] when it is not ([KeyboardInterrupt],
      [SystemExit], ...): [except Exception] catches the first kind only.
      The state that a raising call has already mutated is kept, as in
      Python.
    - The scraper and the validator are external oracles.  The validator is a
      transition function on an abstract state; one scraper invocation is a
      [Script]: a tree of the callbacks it makes into the manager, each
      continuation receiving what the callback returned.
    - [urllib.parse.urlparse] is a parameter of the development (it may raise
      [ValueError], hence [option]); [UrlLib.urlparse] is an executable model
      of the standard library's function, used to run examples. *)

From Stdlib Require Import Floats ZArith Ascii String List Permutation Bool Lia.
From stdpp Require Import gmap strings list.

Open Scope string_scope.
Open Scope list_scope.

(** Decimal literals such as [0.3] denote the nearest double, as in Python. *)
Set Warnings "-inexact-float".

(* ===================================================================== *)
(** ** Python built-ins used by the source *)
(* ===================================================================== *)

Module Py.

(** [s.split(c)] for a one-character separator: the pieces between the
    occurrences of [c], empty pieces included; never the empty list. *)
Fixpoint split (c : ascii) (s : string) : list string :=
  match s with
  | EmptyString => [EmptyString]
  | String a s' =>
      if Ascii.eqb a c then EmptyString :: split c s'
      else match split c s' with
           | [] => [String a EmptyString]
           | piece :: pieces => String a piece :: pieces
           end
  end.

(** [s.count(c)] *)
Fixpoint count (c : ascii) (s : string) : nat :=
  match s with
  | EmptyString => 0
  | String a s' => (if Ascii.eqb a c then 1 else 0) + count c s'
  end.

(** [c in s] *)
Fixpoint contains (c : ascii) (s : string) : bool :=
  match s with
  | EmptyString => false
  | String a s' => Ascii.eqb a c || contains c s'
  end.

(** [(s[:i], s[i:])] for the first index [i] whose character satisfies [p]
    ([i = len(s)] when there is none). *)
Fixpoint break (p : ascii -> bool) (s : string) : string * string :=
  match s with
  | EmptyString => (EmptyString, EmptyString)
  | String a s' =>
      if p a then (EmptyString, s)
      else let '(l, r) := break p s' in (String a l, r)
  end.

(** [s.split(c, 1)] when [c in s]: the text before and after the first [c]. *)
Definition partition (c : ascii) (s : string) : string * string :=
  let '(l, r) := break (Ascii.eqb c) s in
  match r with
  | EmptyString => (l, EmptyString)
  | String _ r' => (l, r')
  end.

Fixpoint filter (p : ascii -> bool) (s : string) : string :=
  match s with
  | EmptyString => EmptyString
  | String a s' => if p a then String a (filter p s') else filter p s'
  end.

Fixpoint forallb (p : ascii -> bool) (s : string) : bool :=
  match s with
  | EmptyString => true
  | String a s' => p a && forallb p s'
  end.

Fixpoint lstrip (p : ascii -> bool) (s : string) : string :=
  match s with
  | EmptyString => EmptyString
  | String a s' => if p a then lstrip p s' else s
  end.

Definition is_upper (a : ascii) : bool :=
  (65 <=? nat_of_ascii a)%nat && (nat_of_ascii a <=? 90)%nat.
Definition is_lower (a : ascii) : bool :=
  (97 <=? nat_of_ascii a)%nat && (nat_of_ascii a <=? 122)%nat.
Definition is_digit (a : ascii) : bool :=
  (48 <=? nat_of_ascii a)%nat && (nat_of_ascii a <=? 57)%nat.
Definition is_alpha (a : ascii) : bool := is_upper a || is_lower a.

Definition lower_char (a : ascii) : ascii :=
  if is_upper a then ascii_of_nat (nat_of_ascii a + 32) else a.

Fixpoint lower (s : string) : string :=
  match s with
  | EmptyString => EmptyString
  | String a s' => String (lower_char a) (lower s')
  end.

(** [str(x)] for [x : Optional[str]] inside an f-string. *)
Definition str_optional (x : option string) : string :=
  match x with
  | None => "None"
  | Some s => s
  end.

End Py.

(* ===================================================================== *)
(** ** [urllib.parse.urlparse] *)
(* ===================================================================== *)

Module UrlLib.

Record ParseResult := mkParseResult {
  scheme : string;
  netloc : string;
  path : string;
  params : string;
  query : string;
  fragment : string
}.

Definition uses_params : list string :=
  [""; "ftp"; "hdl"; "prospero"; "http"; "imap"; "https"; "shttp"; "rtsp";
   "rtspu"; "sip"; "sips"; "mms"; "sftp"; "tel"].

Definition scheme_char (a : ascii) : bool :=
  Py.is_alpha a || Py.is_digit a
  || Ascii.eqb a "+" || Ascii.eqb a "-" || Ascii.eqb a ".".

(** [_WHATWG_C0_CONTROL_OR_SPACE]: the characters 0x00 to 0x20. *)
Definition c0_control_or_space (a : ascii) : bool := (nat_of_ascii a <=? 32)%nat.

(** [_UNSAFE_URL_BYTES_TO_REMOVE]: tab, carriage return, line feed. *)
Definition unsafe_byte (a : ascii) : bool :=
  (nat_of_ascii a =? 9)%nat || (nat_of_ascii a =? 13)%nat || (nat_of_ascii a =? 10)%nat.

Definition netloc_delim (a : ascii) : bool :=
  Ascii.eqb a "/" || Ascii.eqb a "?" || Ascii.eqb a "#".

(** The scheme part of [urlsplit]: [Some (scheme, rest)] when the text
    before the first colon is a non-empty run of scheme characters that
    starts with a letter. *)
Definition split_scheme (url : string) : option (string * string) :=
  if Py.contains ":" url then
    let '(s, rest) := Py.partition ":" url in
    match s with
    | EmptyString => None
    | String a _ =>
        if Py.is_alpha a && Py.forallb scheme_char s
        then Some (Py.lower s, rest) else None
    end
  else None.

(** [urlsplit]'s test on a netloc with one bracket but not the other. *)
Definition unbalanced_brackets (nl : string) : bool :=
  (Py.contains "[" nl && negb (Py.contains "]" nl))
  || (Py.contains "]" nl && negb (Py.contains "[" nl)).

(** [(url[:k], url[k:])] with [k] one past the last ["/"], or 0. *)
Fixpoint rsplit_slash (s : string) : string * string :=
  match s with
  | EmptyString => (EmptyString, EmptyString)
  | String a s' =>
      let '(p, l) := rsplit_slash s' in
      match p with
      | String _ _ => (String a p, l)
      | EmptyString =>
          if Ascii.eqb a "/" then (String a EmptyString, l)
          else (EmptyString, String a l)
      end
  end.

(** [_splitparams]: the parameters follow the first [";"] of the last
    path segment. *)
Definition splitparams (url : string) : string * string :=
  if Py.contains "/" url then
    let '(dir, last) := rsplit_slash url in
    if Py.contains ";" last then
      let '(l, r) := Py.partition ";" last in (dir +:+ l, r)
    else (url, EmptyString)
  else Py.partition ";" url.

(** [urlparse(url)], after CPython 3.11 with the default arguments.
    [None] stands for the [ValueError] ("Invalid IPv6 URL") of a netloc with
    unbalanced brackets.  Strings are byte strings here: the checks that
    only concern non-ASCII netlocs (NFKC) and the validation of the address
    inside a balanced pair of brackets are not modelled. *)
Definition urlparse (url0 : string) : option ParseResult :=
  let url := Py.filter (fun a => negb (unsafe_byte a))
                       (Py.lstrip c0_control_or_space url0) in
  let '(sch, url) :=
    match split_scheme url with
    | Some (s, rest) => (s, rest)
    | None => (EmptyString, url)
    end in
  let '(nl, url) :=
    match url with
    | String "/" (String "/" rest) => Py.break netloc_delim rest
    | _ => (EmptyString, url)
    end in
  if unbalanced_brackets nl then None
  else
    let '(url, frag) :=
      if Py.contains "#" url then Py.partition "#" url else (url, EmptyString) in
    let '(url, qry) :=
      if Py.contains "?" url then Py.partition "?" url else (url, EmptyString) in
    let '(url, prm) :=
      if bool_decide (sch ∈ uses_params) && Py.contains ";" url
      then splitparams url else (url, EmptyString) in
    Some (mkParseResult sch nl url prm qry frag).

End UrlLib.

(* ===================================================================== *)
(** ** Value types (poi_scraper.poi_types, as the sources use them) *)
(* ===================================================================== *)

(** The outcome of a call that may raise.  [Exn]: the call raises an
    exception that is an instance of [Exception], which a clause
    [except Exception] catches.  [BaseExn]: it raises one that is not
    ([KeyboardInterrupt], [SystemExit], [GeneratorExit],
    [asyncio.CancelledError]), which such a clause lets through. *)
Inductive result (A : Type) : Type :=
| Ok (a : A)
| Exn
| BaseExn.
Arguments Ok {A} a.
Arguments Exn {A}.
Arguments BaseExn {A}.

Module PoiData.
Record t := mk {
  name : string;
  description : string;
  category : string;
  location : option string
}.
End PoiData.

(** The fields are those [ValidatePoiAgent.validate] fills in. *)
Module PoiValidationResult.
Record t := mk {
  is_valid : bool;
  name : string;
  description : string;
  raw_response : string
}.
End PoiValidationResult.

(** A value of the dictionary [poi_list]:
    [{"description": .., "category": .., "location": ..}]. *)
Module PoiEntry.
Record t := mk {
  description : string;
  category : string;
  location : option string
}.
End PoiEntry.

Module ScoredURL.
Record t := mk {
  url : string;
  score : float
}.

(** Modelled from the spec: [ScoredURL.__lt__], the comparison the priority
    queue orders its entries by, is declared in poi_types.py, which is not
    among the sources.  The spec: "higher priority is dequeued first".  The
    queue hands out its least entry, so an entry is less than another when
    its score is greater. *)
Definition lt (a b : t) : bool := PrimFloat.ltb (score b) (score a).
End ScoredURL.

(** [queue.PriorityQueue], single-threaded: the entries in insertion order;
    [get] removes a least entry for [ScoredURL.lt]. *)
Module PriorityQueue.

Definition empty (q : list ScoredURL.t) : bool :=
  match q with
  | [] => true
  | _ :: _ => false
  end.

Definition put (q : list ScoredURL.t) (x : ScoredURL.t) : list ScoredURL.t :=
  (q ++ [x])%list.

(** Modelled from the spec: which of several least entries [get] hands out
    depends on [ScoredURL.__lt__] and on the heap; the spec accepts "ties
    broken ... by insertion order".  The function returns the least entry of
    [x :: l], the first inserted among equals, and the other entries in
    their order. *)
Fixpoint extract_min (x : ScoredURL.t) (l : list ScoredURL.t)
  : ScoredURL.t * list ScoredURL.t :=
  match l with
  | [] => (x, [])
  | y :: l' =>
      let '(b, r) := extract_min y l' in
      if ScoredURL.lt b x then (b, x :: r) else (x, l)
  end.

(** [None] on an empty queue, where Python's [get] would block; the driver
    only calls it after [empty()] returned [False]. *)
Definition get (q : list ScoredURL.t) : option (ScoredURL.t * list ScoredURL.t) :=
  match q with
  | [] => None
  | x :: l => Some (extract_min x l)
  end.

End PriorityQueue.

(** An entry of the link log: [(url, score)]. *)
Definition Link : Type := string * float.

(** Equality of two such tuples as [set] decides it, for scores that are
    numbers: [==] on [str] and IEEE equality on [float].  Python's containers
    take identical objects for equal before they try [==], which makes a
    difference for a NaN score only: two pairs with the same URL and the
    same NaN object are one element of a set, two pairs with different NaN
    objects are two.  Which objects are identical is not a property of the
    values, so pairs with a NaN score are outside this model; the properties
    that rest on the contents of a set assume that no score of the log is a
    NaN. *)
Definition link_eqb (a b : Link) : bool :=
  String.eqb (fst a) (fst b) && PrimFloat.eqb (snd a) (snd b).

(** [x in s] *)
Definition link_mem (x : Link) (s : list Link) : bool :=
  existsb (link_eqb x) s.

(** [set(l)]: the elements of [l], an element equal to an earlier one being
    dropped.  The list is only a carrier; see [list_of_set] for the order in
    which Python enumerates a set. *)
Definition py_set (l : list Link) : list Link :=
  fold_left (fun acc x => if link_mem x acc then acc else (acc ++ [x])%list) l [].

(** [a - b] on sets. *)
Definition set_difference (a b : list Link) : list Link :=
  List.filter (fun x => negb (link_mem x b)) a.

(* ===================================================================== *)
(** ** [class PoiManager] *)
(* ===================================================================== *)

Section Manager.

(** [urllib.parse.urlparse]; [None] when it raises. *)
Variable urlparse : string -> option UrlLib.ParseResult.

(** [repr] on [str] and [str] on [float], as f-strings apply them. *)
Variable py_repr : string -> string.
Variable py_str_float : float -> string.

(** [list(s)] for a set [s] of links: the order is the set's iteration
    order, which depends on the hashes of the strings; any order is
    possible, and the elements are those of the set. *)
Variable list_of_set : list Link -> list Link.
Hypothesis list_of_set_perm : forall s, Permutation (list_of_set s) s.

(** The validator object ([ValidatePoiAgentProtocol]): a state and the method
    [validate(name, description, category, location)], which returns a
    verdict or raises, and may change the validator's state. *)
Variable Validator : Type.
Variable validate :
  Validator -> string -> string -> string -> option string ->
  result PoiValidationResult.t * Validator.

(** The state the scraper closure carries from one invocation to the next. *)
Variable ScraperSt : Type.

Record PoiManager := mkPoiManager {
  base_url : string;
  poi_validator : Validator;
  base_domain : string;
  visited_urls : gset string;
  url_queue : list ScoredURL.t;
  poi_list : gmap string PoiEntry.t;
  all_links_with_scores : list Link;
  _current_url_links_with_scores : list Link
}.

Definition set_poi_validator (m : PoiManager) (v : Validator) : PoiManager :=
  mkPoiManager (base_url m) v (base_domain m) (visited_urls m) (url_queue m)
               (poi_list m) (all_links_with_scores m)
               (_current_url_links_with_scores m).

Definition set_visited_urls (m : PoiManager) (s : gset string) : PoiManager :=
  mkPoiManager (base_url m) (poi_validator m) (base_domain m) s (url_queue m)
               (poi_list m) (all_links_with_scores m)
               (_current_url_links_with_scores m).

Definition set_url_queue (m : PoiManager) (q : list ScoredURL.t) : PoiManager :=
  mkPoiManager (base_url m) (poi_validator m) (base_domain m) (visited_urls m) q
               (poi_list m) (all_links_with_scores m)
               (_current_url_links_with_scores m).

Definition set_poi_list (m : PoiManager) (r : gmap string PoiEntry.t) : PoiManager :=
  mkPoiManager (base_url m) (poi_validator m) (base_domain m) (visited_urls m)
               (url_queue m) r (all_links_with_scores m)
               (_current_url_links_with_scores m).

Definition set_all_links_with_scores (m : PoiManager) (l : list Link) : PoiManager :=
  mkPoiManager (base_url m) (poi_validator m) (base_domain m) (visited_urls m)
               (url_queue m) (poi_list m) l (_current_url_links_with_scores m).

Definition set_current_url_links_with_scores (m : PoiManager) (l : list Link)
  : PoiManager :=
  mkPoiManager (base_url m) (poi_validator m) (base_domain m) (visited_urls m)
               (url_queue m) (poi_list m) (all_links_with_scores m) l.

(** [__init__]; raises when [urlparse(base_url)] does. *)
Definition init (base_url : string) (poi_validator : Validator) : result PoiManager :=
  match urlparse base_url with
  | None => Exn
  | Some parsed =>
      Ok (mkPoiManager base_url poi_validator (UrlLib.netloc parsed) ∅ [] ∅ [] [])
  end.

Definition entry_of (poi : PoiData.t) : PoiEntry.t :=
  PoiEntry.mk (PoiData.description poi) (PoiData.category poi) (PoiData.location poi).

Definition validation_failed_message (poi : PoiData.t) : string :=
  "POI validation failed for: (" +:+ py_repr (PoiData.name poi) +:+ ", "
  +:+ py_repr (PoiData.description poi) +:+ ")".

Definition registered_message (poi : PoiData.t) : string :=
  "POI registered: " +:+ PoiData.name poi +:+ ", Category: "
  +:+ PoiData.category poi +:+ ", Location: "
  +:+ Py.str_optional (PoiData.location poi).

(** [register_poi]; an exception of the validator propagates. *)
Definition register_poi (m : PoiManager) (poi : PoiData.t)
  : result string * PoiManager :=
  let '(poi_validation_result, v) :=
    validate (poi_validator m) (PoiData.name poi) (PoiData.description poi)
             (PoiData.category poi) (PoiData.location poi) in
  let m := set_poi_validator m v in
  match poi_validation_result with
  | Exn => (Exn, m)
  | BaseExn => (BaseExn, m)
  | Ok verdict =>
      if negb (PoiValidationResult.is_valid verdict)
      then (Ok (validation_failed_message poi), m)
      else (Ok (registered_message poi),
            set_poi_list m (<[PoiData.name poi := entry_of poi]> (poi_list m)))
  end.

(** [register_link] *)
Definition register_link (m : PoiManager) (url : string) (score : float)
  : string * PoiManager :=
  ("Link registered: " +:+ url +:+ ", AI score: " +:+ py_str_float score,
   set_all_links_with_scores m (all_links_with_scores m ++ [(url, score)])%list).

(** [_add_to_queue] *)
Definition _add_to_queue (m : PoiManager) (url : string) (score : float) : PoiManager :=
  set_url_queue m (PriorityQueue.put (url_queue m) (ScoredURL.mk url score)).

(** [_should_process_url] *)
Definition _should_process_url (m : PoiManager) (url : string) : result bool :=
  if bool_decide (url ∈ visited_urls m) then Ok false
  else match urlparse url with
       | None => Exn
       | Some parsed => Ok (String.eqb (UrlLib.netloc parsed) (base_domain m))
       end.

(** [len(path.split("/")) - 1] *)
Definition path_depth (path : string) : Z :=
  Z.of_nat (length (Py.split "/" path)) - 1.

(** The chain of [if depth == ..: return ..] of [_calculate_depth_score]. *)
Definition depth_score_of (depth : Z) : float :=
  if (depth =? 0)%Z then 0.0%float
  else if (depth =? 1)%Z then 0.3%float
  else if (depth =? 2)%Z then 0.5%float
  else if (depth =? 3)%Z then 0.7%float
  else 0.9%float.

(** [_calculate_depth_score] *)
Definition _calculate_depth_score (url : string) : result float :=
  match urlparse url with
  | None => Exn
  | Some parsed => Ok (depth_score_of (path_depth (UrlLib.path parsed)))
  end.

(** [_calculate_final_score] *)
Definition _calculate_final_score (ai_score depth_score : float) : float :=
  ((ai_score * 0.4) + (depth_score * 0.6))%float.

(** The body of the [for] loop of [_process_new_urls], for one element. *)
Definition process_new_url (m : PoiManager) (link : Link) : result unit * PoiManager :=
  let '(url, ai_score) := link in
  if (ai_score <? 0.5)%float then (Ok tt, m)
  else
    match _should_process_url m url with
    | Exn => (Exn, m)
    | BaseExn => (BaseExn, m)
    | Ok false => (Ok tt, m)
    | Ok true =>
        match _calculate_depth_score url with
        | Exn => (Exn, m)
        | BaseExn => (BaseExn, m)
        | Ok depth_score =>
            let final_score := _calculate_final_score ai_score depth_score in
            (Ok tt, _add_to_queue m url final_score)
        end
    end.

(** The [for] loop: it stops at the first exception. *)
Fixpoint for_each_new_url (links : list Link) (m : PoiManager)
  : result unit * PoiManager :=
  match links with
  | [] => (Ok tt, m)
  | link :: links' =>
      match process_new_url m link with
      | (Exn, m') => (Exn, m')
      | (BaseExn, m') => (BaseExn, m')
      | (Ok _, m') => for_each_new_url links' m'
      end
  end.

(** [_process_new_urls] *)
Definition _process_new_urls (m : PoiManager) : result unit * PoiManager :=
  for_each_new_url (_current_url_links_with_scores m) m.

(** *** The scraper *)

(** One invocation [scraper(url)], as the manager sees it: the calls it makes
    to [register_poi] and [register_link], then a normal return, an exception
    that is an instance of [Exception] ([Raise]) or one that is not
    ([RaiseBase]); the leaves carry the scraper's next state.  The
    continuation of a [register_poi] call receives the outcome of the call:
    the returned message, or which kind of exception it raised (the scraper
    may then raise itself or go on). *)
Inductive Script : Type :=
| Return (s : ScraperSt)
| Raise (s : ScraperSt)
| RaiseBase (s : ScraperSt)
| CallRegisterPoi (poi : PoiData.t) (k : result string -> Script)
| CallRegisterLink (url : string) (score : float) (k : string -> Script).

(** The callable that [scraper_factory.create_scraper(self)] returns. *)
Variable scraper : ScraperSt -> string -> Script.

Fixpoint run_script (sc : Script) (m : PoiManager)
  : result unit * ScraperSt * PoiManager :=
  match sc with
  | Return s => (Ok tt, s, m)
  | Raise s => (Exn, s, m)
  | RaiseBase s => (BaseExn, s, m)
  | CallRegisterPoi poi k =>
      let '(outcome, m') := register_poi m poi in
      run_script (k outcome) m'
  | CallRegisterLink url score k =>
      let '(msg, m') := register_link m url score in
      run_script (k msg) m'
  end.

(** The pairs one invocation passes to [register_link], in the order of the
    calls. *)
Fixpoint registered_links (sc : Script) (m : PoiManager) : list Link :=
  match sc with
  | Return _ | Raise _ | RaiseBase _ => []
  | CallRegisterPoi poi k =>
      let '(outcome, m') := register_poi m poi in
      registered_links (k outcome) m'
  | CallRegisterLink url score k =>
      let '(msg, m') := register_link m url score in
      (url, score) :: registered_links (k msg) m'
  end.

(** *** [process] *)

(** What one iteration of the [while] loop did; [new] is the list assigned
    to [_current_url_links_with_scores] in that iteration.  [ScraperRaised]
    and [LinksRaised]: the clause [except Exception] caught an exception of
    the scraper call, or of [_process_new_urls].  [Propagated]: the [try]
    block raised an exception that the clause does not catch, which leaves
    the loop and [process]. *)
Inductive Outcome : Type :=
| Skipped
| ScraperRaised
| LinksRaised (new : list Link)
| Visited (new : list Link)
| Propagated.

Record Event := mkEvent {
  ev_url : string;
  ev_outcome : Outcome
}.

(** [set(self.all_links_with_scores) - set(self._current_url_links_with_scores)]
    turned into a list. *)
Definition new_links (m : PoiManager) : list Link :=
  list_of_set (set_difference (py_set (all_links_with_scores m))
                              (py_set (_current_url_links_with_scores m))).

(** The test of the [while] loop and one run of its body: [None] when
    [empty()] holds (the loop ends), otherwise what happened and the state
    it left.  The two [Exn] branches are the [except Exception: continue];
    in the [BaseExn] branches the exception is not caught. *)
Definition iteration (m : PoiManager) (s : ScraperSt)
  : option (Event * PoiManager * ScraperSt) :=
  if PriorityQueue.empty (url_queue m) then None
  else
  match PriorityQueue.get (url_queue m) with
  | None => None
  | Some (entry, q) =>
      let m := set_url_queue m q in
      let current_url := ScoredURL.url entry in
      if bool_decide (current_url ∈ visited_urls m)
      then Some (mkEvent current_url Skipped, m, s)
      else
        match run_script (scraper s current_url) m with
        | (Exn, s, m) => Some (mkEvent current_url ScraperRaised, m, s)
        | (BaseExn, s, m) => Some (mkEvent current_url Propagated, m, s)
        | (Ok _, s, m) =>
            let m := set_current_url_links_with_scores m (new_links m) in
            let new := _current_url_links_with_scores m in
            match _process_new_urls m with
            | (Exn, m) => Some (mkEvent current_url (LinksRaised new), m, s)
            | (BaseExn, m) => Some (mkEvent current_url Propagated, m, s)
            | (Ok _, m) =>
                let m := set_visited_urls m ({[current_url]} ∪ visited_urls m) in
                Some (mkEvent current_url (Visited new), m, s)
            end
        end
  end.

(** The exception of the iteration has left the loop. *)
Definition propagated (e : Event) : bool :=
  match ev_outcome e with
  | Propagated => true
  | _ => false
  end.

(** The [while] loop, at most [fuel] tests of its condition: how the loop
    was left ([Ok tt] when the queue was empty at the test, [BaseExn] when
    an exception left it), the events of the iterations and the state at the
    loop's exit; or [None] when the loop is still running. *)
Fixpoint crawl (fuel : nat) (m : PoiManager) (s : ScraperSt)
  : option (result unit * list Event * PoiManager * ScraperSt) :=
  match fuel with
  | O => None
  | S fuel' =>
      match iteration m s with
      | None => Some (Ok tt, [], m, s)
      | Some (e, m', s') =>
          if propagated e then Some (BaseExn, [e], m', s')
          else
            match crawl fuel' m' s' with
            | None => None
            | Some (r, es, m'', s'') => Some (r, e :: es, m'', s'')
            end
      end
  end.

(** [process], from the scraper's initial state. *)
Definition run (fuel : nat) (m : PoiManager) (s : ScraperSt)
  : option (result unit * list Event * PoiManager * ScraperSt) :=
  crawl fuel (_add_to_queue m (base_url m) 1.0%float) s.

(** What [process] does: it returns [self.poi_list], or the exception that
    left the loop leaves [process]. *)
Definition process (fuel : nat) (m : PoiManager) (s : ScraperSt)
  : option (result (gmap string PoiEntry.t)) :=
  match run fuel m s with
  | None => None
  | Some (Ok _, _, m', _) => Some (Ok (poi_list m'))
  | Some (Exn, _, _, _) => Some Exn
  | Some (BaseExn, _, _, _) => Some BaseExn
  end.

End Manager.

Arguments Return {ScraperSt} s.
Arguments Raise {ScraperSt} s.
Arguments RaiseBase {ScraperSt} s.
Arguments CallRegisterPoi {ScraperSt} poi k.
Arguments CallRegisterLink {ScraperSt} url score k.
Arguments base_url {Validator} _.
Arguments poi_validator {Validator} _.
Arguments base_domain {Validator} _.
Arguments visited_urls {Validator} _.
Arguments url_queue {Validator} _.
Arguments poi_list {Validator} _.
Arguments all_links_with_scores {Validator} _.
Arguments _current_url_links_with_scores {Validator} _.

(* ===================================================================== *)
(** ** Notions used to state the properties *)
(* ===================================================================== *)

Section Notions.

Variable urlparse : string -> option UrlLib.ParseResult.
Variable py_repr : string -> string.
Variable py_str_float : float -> string.
Variable list_of_set : list Link -> list Link.
Variable Validator : Type.
Variable validate :
  Validator -> string -> string -> string -> option string ->
  result PoiValidationResult.t * Validator.
Variable ScraperSt : Type.
Variable scraper : ScraperSt -> string -> Script ScraperSt.

(** Exactly [n] iterations of the [while] loop; there is none after an
    iteration whose exception has left the loop. *)
Fixpoint iterate (n : nat) (m : PoiManager Validator) (s : ScraperSt)
  : option (list Event * PoiManager Validator * ScraperSt) :=
  match n with
  | O => Some ([], m, s)
  | S n' =>
      match iteration urlparse py_repr py_str_float list_of_set Validator validate
                      ScraperSt scraper m s with
      | None => None
      | Some (e, m', s') =>
          match n', propagated e with
          | S _, true => None
          | _, _ =>
              match iterate n' m' s' with
              | None => None
              | Some (es, m'', s'') => Some (e :: es, m'', s'')
              end
          end
      end
  end.

(** The links a [for] loop over [_current_url_links_with_scores] pushes for
    one element when nothing raises: the three tests of [_process_new_urls]
    and [_should_process_url], and the entry [_add_to_queue] builds. *)
Definition pushed_for (m : PoiManager Validator) (link : Link) : list ScoredURL.t :=
  if (snd link <? 0.5)%float then []
  else if bool_decide (fst link ∈ visited_urls m) then []
  else match urlparse (fst link) with
       | None => []
       | Some parsed =>
           if String.eqb (UrlLib.netloc parsed) (base_domain m)
           then [ScoredURL.mk (fst link)
                   (_calculate_final_score (snd link)
                      (depth_score_of (path_depth (UrlLib.path parsed))))]
           else []
       end.

(** A registry entry that a verdict [is_valid = True] of the validator
    stands behind. *)
Definition validated (name : string) (e : PoiEntry.t) : Prop :=
  exists (v v' : Validator) (poi : PoiData.t) (verdict : PoiValidationResult.t),
    validate v (PoiData.name poi) (PoiData.description poi)
             (PoiData.category poi) (PoiData.location poi) = (Ok verdict, v')
    /\ PoiValidationResult.is_valid verdict = true
    /\ PoiData.name poi = name
    /\ e = entry_of poi.

(** Every entry of the frontier is for a URL of the base domain. *)
Definition frontier_in_domain (m : PoiManager Validator) : Prop :=
  forall e, In e (url_queue m) ->
            exists parsed, urlparse (ScoredURL.url e) = Some parsed
                           /\ UrlLib.netloc parsed = base_domain m.

End Notions.

(** The scraper call of the iteration returned. *)
Definition scraper_returned (e : Event) : bool :=
  match ev_outcome e with
  | LinksRaised _ | Visited _ => true
  | Skipped | ScraperRaised | Propagated => false
  end.

(** The iteration ran its [try] block to the end. *)
Definition completed (e : Event) : bool :=
  match ev_outcome e with
  | Visited _ => true
  | _ => false
  end.

(** Over a sequence of iterations that starts with the visited set [seen]:
    an iteration for a URL of the visited set is a skip, and the set grows by
    the URL of each completed iteration. *)
Fixpoint visited_once (seen : gset string) (es : list Event) : Prop :=
  match es with
  | [] => True
  | e :: es' =>
      (ev_url e ∈ seen -> ev_outcome e = Skipped)
      /\ visited_once (if completed e then {[ev_url e]} ∪ seen else seen) es'
  end.

(** The iteration invoked the scraper. *)
Definition scraper_invoked (e : Event) : bool :=
  match ev_outcome e with
  | Skipped => false
  | _ => true
  end.

(** The depth as the specification words it: the number of non-empty
    segments of the path. *)
Definition nonempty_segments (path : string) : nat :=
  length (List.filter (fun piece => negb (String.eqb piece "")) (Py.split "/" path)).

(** The newly reported links as the specification words them: the pairs in
    the log now that are not in the log as it stood at the end of the
    previous iteration. *)
Definition newly_reported_spec (log_now log_before : list Link) : list Link :=
  set_difference (py_set log_now) (py_set log_before).

(** The base score by depth, as the specification tabulates it. *)
Definition depth_base (depth : nat) : float :=
  match depth with
  | 0 => 0.0
  | 1 => 0.3
  | 2 => 0.5
  | 3 => 0.7
  | _ => 0.9
  end%float.

(* ===================================================================== *)
(** ** Concrete collaborators and crawls *)
(* ===================================================================== *)

Module Scenario.

(** [repr] on strings without quotes or escapes. *)
Definition repr (s : string) : string := "'" +:+ s +:+ "'".

(** A stand-in for [str] on floats; the text only goes back to the scraper. *)
Definition str_float (x : float) : string := "<float>".

(** A set enumerated in the order of first insertion. *)
Definition insertion_order (s : list Link) : list Link := s.

(** A set enumerated in the reverse order. *)
Definition reverse_order (s : list Link) : list Link := rev s.

(** A stateless validator that accepts exactly the name "Beach". *)
Definition validate (v : unit) (name description category : string)
           (location : option string) : result PoiValidationResult.t * unit :=
  (Ok (PoiValidationResult.mk (String.eqb name "Beach") name description
         (if String.eqb name "Beach" then "Yes" else "No")), v).



Definition seed : string := "https://example.com".
Definition page_a : string := "https://example.com/a".
Definition page_b : string := "https://example.com/b".
Definition page_c : string := "https://example.com/c".
Definition page_d : string := "https://example.com/d".
Definition bad_url : string := "http://[bad".

Definition beach : PoiData.t := PoiData.mk "Beach" "A sandy beach" "Beach" None.
Definition things : PoiData.t :=
  PoiData.mk "Things to do" "Ideas for a day out" "Guide" (Some "Chennai").

(** The manager [PoiManager(base, validator)] for a base URL that parses. *)
Definition manager (base : string) : PoiManager unit :=
  match init UrlLib.urlparse unit base tt with
  | Ok m => m
  | _ => mkPoiManager unit base tt "" ∅ [] ∅ [] []
  end.

(** The scrapers count their invocations. *)
Definition done (n : nat) : Script nat := Return (S n).
Definition fail (n : nat) : Script nat := Raise (S n).
Definition interrupt (n : nat) : Script nat := RaiseBase (S n).

(** A site of three pages: the seed links to two pages that report nothing. *)
Definition scraper_three_pages (n : nat) (url : string) : Script nat :=
  if String.eqb url seed then
    CallRegisterLink page_a 0.9 (fun _ =>
    CallRegisterLink page_b 0.8 (fun _ => done n))
  else done n.

(** A page without links or POIs. *)
Definition scraper_nothing (n : nat) (url : string) : Script nat := done n.

(** The seed registers two candidates and reports a link, then fails. *)
Definition scraper_seed_fails (n : nat) (url : string) : Script nat :=
  CallRegisterPoi beach (fun _ =>
  CallRegisterPoi things (fun _ =>
  CallRegisterLink page_a 0.9 (fun _ => fail n))).

(** The seed registers two candidates and reports three links. *)
Definition scraper_guide (n : nat) (url : string) : Script nat :=
  if String.eqb url seed then
    CallRegisterPoi beach (fun _ =>
    CallRegisterPoi things (fun _ =>
    CallRegisterLink page_a 0.9 (fun _ =>
    CallRegisterLink "https://other.com/x" 1.0 (fun _ =>
    CallRegisterLink page_b 0.49 (fun _ => done n)))))
  else done n.

(** Page a reports a malformed link; page b links back to page a. *)
Definition scraper_malformed_link (n : nat) (url : string) : Script nat :=
  if String.eqb url seed then
    CallRegisterLink page_a 0.9 (fun _ =>
    CallRegisterLink page_b 0.8 (fun _ => done n))
  else if String.eqb url page_a then
    CallRegisterLink bad_url 0.9 (fun _ => done n)
  else if String.eqb url page_b then
    CallRegisterLink page_a 0.7 (fun _ => done n)
  else done n.

(** Page a reports the link to page b once more and fails. *)
Definition scraper_repeats_link (n : nat) (url : string) : Script nat :=
  if String.eqb url seed then
    CallRegisterLink page_a 0.9 (fun _ =>
    CallRegisterLink page_b 0.8 (fun _ => done n))
  else if String.eqb url page_a then
    CallRegisterLink page_b 0.8 (fun _ => fail n)
  else done n.

(** Page a reports page c and fails; page b then reports a malformed link. *)
Definition scraper_lost_link (n : nat) (url : string) : Script nat :=
  if String.eqb url seed then
    CallRegisterLink page_a 0.9 (fun _ =>
    CallRegisterLink page_b 0.8 (fun _ =>
    CallRegisterLink page_d 0.7 (fun _ => done n)))
  else if String.eqb url page_a then
    CallRegisterLink page_c 0.9 (fun _ => fail n)
  else if String.eqb url page_b then
    CallRegisterLink bad_url 0.9 (fun _ => done n)
  else done n.

(** Page a reports page c and fails; the other pages report nothing. *)
Definition scraper_recovered_link (n : nat) (url : string) : Script nat :=
  if String.eqb url seed then
    CallRegisterLink page_a 0.9 (fun _ =>
    CallRegisterLink page_b 0.8 (fun _ => done n))
  else if String.eqb url page_a then
    CallRegisterLink page_c 0.9 (fun _ => fail n)
  else done n.

(** The loop state after [__init__] and the initial [_add_to_queue]. *)
Definition start (base : string) : PoiManager unit :=
  _add_to_queue unit (manager base) base 1.0.

Definition iteration_of (order : list Link -> list Link)
           (scraper : nat -> string -> Script nat) :=
  iteration UrlLib.urlparse repr str_float order unit validate nat scraper.

Definition iterate_of (order : list Link -> list Link)
           (scraper : nat -> string -> Script nat) :=
  iterate UrlLib.urlparse repr str_float order unit validate nat scraper.

Definition run_of (order : list Link -> list Link)
           (scraper : nat -> string -> Script nat) (fuel : nat) (base : string) :=
  run UrlLib.urlparse repr str_float order unit validate nat scraper fuel
      (manager base) 0.

(** The loop state after [k] iterations (the state at the start when the
    loop has ended before). *)
Definition state_after (order : list Link -> list Link)
           (scraper : nat -> string -> Script nat) (k : nat) (base : string)
  : PoiManager unit * nat :=
  match iterate_of order scraper k (start base) 0 with
  | Some (_, m, s) => (m, s)
  | None => (start base, 0)
  end.

(** The events of a finished crawl. *)
Definition events_of (r : option (result unit * list Event * PoiManager unit * nat))
  : list Event :=
  match r with
  | Some (_, es, _, _) => es
  | None => []
  end.

(** The events of a number of iterations. *)
Definition events_after (r : option (list Event * PoiManager unit * nat)) : list Event :=
  match r with
  | Some (es, _, _) => es
  | None => []
  end.



(** The seed links to page a, whose scraper is interrupted
    ([KeyboardInterrupt]). *)
Definition scraper_interrupted (n : nat) (url : string) : Script nat :=
  if String.eqb url seed then
    CallRegisterLink page_a 0.9 (fun _ =>
    CallRegisterLink page_b 0.8 (fun _ => done n))
  else if String.eqb url page_a then
    CallRegisterLink page_c 0.9 (fun _ => interrupt n)
  else done n.

(** Every page links to a page one level below itself. *)
Definition scraper_endless (n : nat) (url : string) : Script nat :=
  CallRegisterLink (url +:+ "/x") 1.0 (fun _ => done n).

(** The path [k] levels deep, and the page with that path on the seed's
    host. *)
Fixpoint levels (k : nat) : string :=
  match k with
  | O => EmptyString
  | S k' => "/x" +:+ levels k'
  end.

Definition below_seed (k : nat) : string := seed +:+ levels k.

(** The loop state of the endless crawl when the pages above level [k] are
    visited and the page at level [k] is in the frontier. *)
Definition endless_inv (k : nat) (m : PoiManager unit) : Prop :=
  base_domain m = "example.com"
  /\ (forall u, u ∈ visited_urls m <-> exists j, j < k /\ u = below_seed j)
  /\ (forall e, In e (url_queue m) -> exists j, j <= k /\ ScoredURL.url e = below_seed j)
  /\ (exists e, In e (url_queue m) /\ ScoredURL.url e = below_seed k)
  /\ (forall l, In l (all_links_with_scores m) ->
                exists j, 1 <= j <= k /\ fst l = below_seed j)
  /\ (forall l, In l (_current_url_links_with_scores m) -> In l (all_links_with_scores m)).

End Scenario.

(* ===================================================================== *)
(** ** Further notions on crawl states *)
(* ===================================================================== *)

Section MoreNotions.

Variable urlparse : string -> option UrlLib.ParseResult.
Variable Validator : Type.

(** Where an entry of the frontier comes from: it is the seed's entry, or
    the entry [_process_new_urls] builds for a pair of the link log that
    passes its tests. *)
Definition from_seed_or_log (m : PoiManager Validator) (e : ScoredURL.t) : Prop :=
  e = ScoredURL.mk (base_url m) 1.0
  \/ exists ai parsed,
       In (ScoredURL.url e, ai) (all_links_with_scores m)
       /\ PrimFloat.ltb ai 0.5 = false
       /\ urlparse (ScoredURL.url e) = Some parsed
       /\ UrlLib.netloc parsed = base_domain m
       /\ ScoredURL.score e
          = _calculate_final_score ai (depth_score_of (path_depth (UrlLib.path parsed))).

(** The loop body of [_process_new_urls] raises for this link. *)
Definition raises_for (m : PoiManager Validator) (link : Link) : Prop :=
  PrimFloat.ltb (snd link) 0.5 = false
  /\ (fst link ∉ visited_urls m)
  /\ urlparse (fst link) = None.

End MoreNotions.

(* ===================================================================== *)
(** ** Chat histories and [class ValidatePoiAgent]
       (src/poi_scraper/agents/validate_poi_agent.py) *)
(* ===================================================================== *)

Module Chat.

(** What a message dictionary of [chat_result.chat_history] has under the
    key "content": no such key, [None], or a string. *)
Inductive Content : Type :=
| Missing
| IsNone
| Text (s : string).

(** [[msg["content"] for msg in chat_result.chat_history]]; [KeyError] when
    a message has no such key. *)
Fixpoint contents (history : list Content) : result (list (option string)) :=
  match history with
  | [] => Ok []
  | msg :: history' =>
      match msg, contents history' with
      | Missing, _ => Exn
      | _, Exn => Exn
      | _, BaseExn => BaseExn
      | IsNone, Ok messages => Ok (None :: messages)
      | Text s, Ok messages => Ok (Some s :: messages)
      end
  end.

(** [messages = [...]; last_message = messages[-1]]; [IndexError] on an
    empty history. *)
Definition last_message (history : list Content) : result (option string) :=
  match contents history with
  | Exn => Exn
  | BaseExn => BaseExn
  | Ok messages =>
      match last messages with
      | None => Exn
      | Some message => Ok message
      end
  end.

End Chat.

Module ValidatePoiAgent.

Definition nl : string := String (ascii_of_nat 10) EmptyString.

(** The f-string [initial_message] of [validate]. *)
Definition initial_message (name description : string) : string :=
  "Please confirm if the below is a Point of Interest (POI)." +:+ nl +:+ nl
  +:+ "- name:  " +:+ name +:+ nl
  +:+ "- description: " +:+ description +:+ nl.

(** The replies [last_message.lower() == "yes"] accepts. *)
Definition yes_replies : list string :=
  ["yes"; "yeS"; "yEs"; "yES"; "Yes"; "YeS"; "YEs"; "YES"].

Section Agent.

(** The two agents and their conversation so far, and
    [self.user_proxy.initiate_chat(self.validator_agent, message=..,
    summary_method="reflection_with_llm", max_turns=1).chat_history]: the
    history of the chat, or an exception. *)
Variable ChatSt : Type.
Variable initiate_chat : ChatSt -> string -> result (list Chat.Content) * ChatSt.

(** [validate]; [category] and [location] are not used.  [str.lower] is
    modelled on ASCII letters.  A last message whose content is [None] has
    no [lower]: [AttributeError]. *)
Definition validate (st : ChatSt) (name description category : string)
           (location : option string) : result PoiValidationResult.t * ChatSt :=
  let '(chat_result, st) := initiate_chat st (initial_message name description) in
  match chat_result with
  | Exn => (Exn, st)
  | BaseExn => (BaseExn, st)
  | Ok chat_history =>
      match Chat.last_message chat_history with
      | Exn => (Exn, st)
      | BaseExn => (BaseExn, st)
      | Ok None => (Exn, st)
      | Ok (Some last_message) =>
          (Ok (PoiValidationResult.mk (String.eqb (Py.lower last_message) "yes")
                 name description last_message),
           st)
      end
  end.

End Agent.

(** A chat partner with canned histories: each chat returns the next one,
    and raises when none is left. *)
Definition canned_chat (st : list (list Chat.Content)) (message : string)
  : result (list Chat.Content) * list (list Chat.Content) :=
  match st with
  | [] => (Exn, [])
  | history :: rest => (Ok history, rest)
  end.

(** A chat in which the agent answers "Yes" to the question. *)
Definition chat_yes : list Chat.Content :=
  [Chat.Text "Is it a POI?"; Chat.Text "Yes"].

(** A chat in which the agent answers with a sentence. *)
Definition chat_wordy : list Chat.Content :=
  [Chat.Text "Is it a POI?"; Chat.Text "Yes, it is."].

End ValidatePoiAgent.

(* ===================================================================== *)
(** ** [class CustomWebSurferTool]
       (src/poi_scraper/agents/custom_web_surfer.py) *)
(* ===================================================================== *)

Module WebSurfer.

(** [needle in hay] *)
Fixpoint contains_str (needle hay : string) : bool :=
  String.prefix needle hay
  || match hay with
     | EmptyString => false
     | String _ hay' => contains_str needle hay'
     end.

(** The text of lines that each end in a line feed. *)
Fixpoint unlines (lines : list string) : string :=
  match lines with
  | [] => EmptyString
  | line :: lines' => line +:+ ValidatePoiAgent.nl +:+ unlines lines'
  end.

Section Tool.

(** [HttpUrl] and [str] on it. *)
Variable Url : Type.
Variable str_url : Url -> string.

(** [class CustomWebSurferAnswer] *)
Record Answer := mkAnswer {
  task : string;
  is_successful : bool;
  poi_details : string;
  visited_links : list Url
}.

(** [CustomWebSurferAnswer.model_validate_json(s)]: the answer, or the text
    [str(e)] of the exception it raises; and that text for the argument
    [None], which is no JSON input. *)
Variable model_validate_json : string -> Answer + string.
Variable none_error : string.

(** [self.example_answer.model_dump_json()] *)
Variable example_json : string.

(** The property [error_message], for the value of the attribute
    [last_is_termination_msg_error]. *)
Definition error_message (last_is_termination_msg_error : string) : string :=
  unlines
    [ "Please output the JSON-encoded answer only in the following message before trying to terminate the chat.";
      "";
      "IMPORTANT:";
      "  - NEVER enclose JSON-encoded answer in any other text or formatting including '```json' ... '```' or similar!";
      "  - NEVER write TERMINATE in the same message as the JSON-encoded answer!";
      "";
      "EXAMPLE:";
      "";
      example_json;
      "";
      "NEGATIVE EXAMPLES:";
      "";
      "1. Do NOT include 'TERMINATE' in the same message as the JSON-encoded answer!";
      "";
      example_json;
      "";
      "TERMINATE";
      "";
      "2. Do NOT include triple backticks or similar!";
      "";
      "```json";
      example_json;
      "```";
      "";
      "THE LAST ERROR MESSAGE:";
      "";
      last_is_termination_msg_error;
      "" ].

(** [is_termination_msg(msg)] and the attribute
    [last_is_termination_msg_error] after the call.  A message without the
    key makes [msg["content"]] raise [KeyError('content')] inside the [try],
    whose [str] is the quoted key. *)
Definition is_termination_msg (last_is_termination_msg_error : string)
           (msg : Chat.Content) : bool * string :=
  match msg with
  | Chat.Missing => (false, "'content'")
  | Chat.IsNone => (false, none_error)
  | Chat.Text content =>
      if contains_str "TERMINATE" content then (true, last_is_termination_msg_error)
      else match model_validate_json content with
           | inl _ => (true, last_is_termination_msg_error)
           | inr e => (false, e)
           end
  end.

(** [_get_error_message(chat_result)]: [None] when the last message is an
    answer, otherwise the error message to send.  [Exn] as in
    [Chat.last_message], and when the last content is [None], which
    ["TERMINATE" in last_message] does not accept ([TypeError]). *)
Definition _get_error_message (last_is_termination_msg_error : string)
           (chat_history : list Chat.Content) : result (option string) :=
  match Chat.last_message chat_history with
  | Exn => Exn
  | BaseExn => BaseExn
  | Ok None => Exn
  | Ok (Some last_message) =>
      if contains_str "TERMINATE" last_message
      then Ok (Some (error_message last_is_termination_msg_error))
      else match model_validate_json last_message with
           | inr _ => Ok (Some (error_message last_is_termination_msg_error))
           | inl _ => Ok None
           end
  end.

(** [_get_answer(chat_result)] *)
Definition _get_answer (chat_history : list Chat.Content) : result Answer :=
  match Chat.last_message chat_history with
  | Exn => Exn
  | BaseExn => BaseExn
  | Ok None => Exn
  | Ok (Some last_message) =>
      match model_validate_json last_message with
      | inl answer => Ok answer
      | inr _ => Exn
      end
  end.

(** The two agents, their conversation and the tool's attribute, which the
    agents set through [is_termination_msg] while a chat runs:
    [self.websurfer.initiate_chat(self.assistant, clear_history=..,
    message=..).chat_history], or an exception.  The attribute
    [last_is_termination_msg_error] is taken to hold a string at any time:
    the class does not assign it before [is_termination_msg] fails, its base
    class [WebSurferTool] is not among the sources. *)
Variable World : Type.
Variable initiate_chat : World -> bool -> string -> result (list Chat.Content) * World.
Variable last_is_termination_msg_error : World -> string.

(** One call of [initiate_chat], as [_chat_with_websurfer] makes it. *)
Record Call := mkCall {
  call_clear_history : bool;
  call_message : string;
  call_history : result (list Chat.Content)
}.

(** [_chat_with_websurfer(message, clear_history)], at most [fuel] chats:
    the result, the world after it and the chats held, or [None] when the
    loop is still running. *)
Fixpoint _chat_with_websurfer (fuel : nat) (w : World) (msg : string)
         (clear_history : bool) : option (result Answer * World * list Call) :=
  match fuel with
  | O => None
  | S fuel' =>
      let '(chat_result, w) := initiate_chat w clear_history msg in
      let call := mkCall clear_history msg chat_result in
      match chat_result with
      | Exn => Some (Exn, w, [call])
      | BaseExn => Some (BaseExn, w, [call])
      | Ok chat_history =>
          match _get_error_message (last_is_termination_msg_error w) chat_history with
          | Exn => Some (Exn, w, [call])
          | BaseExn => Some (BaseExn, w, [call])
          | Ok None => Some (_get_answer chat_history, w, [call])
          | Ok (Some msg') =>
              match _chat_with_websurfer fuel' w msg' false with
              | None => None
              | Some (r, w', calls) => Some (r, w', call :: calls)
              end
          end
      end
  end.

(** [create_final_reply(task, message)] *)
Definition create_final_reply (task : string) (message : Answer) : string :=
  let retval :=
    if is_successful message
    then "We have successfully completed the task:" +:+ ValidatePoiAgent.nl +:+ ValidatePoiAgent.nl
    else "We have failed to complete the task:" +:+ ValidatePoiAgent.nl +:+ ValidatePoiAgent.nl in
  let retval := retval +:+ (task +:+ ValidatePoiAgent.nl +:+ ValidatePoiAgent.nl) in
  let retval := retval +:+ ("poi_details: " +:+ poi_details message
                            +:+ ValidatePoiAgent.nl +:+ ValidatePoiAgent.nl) in
  let retval := retval +:+ ("Visited links:" +:+ ValidatePoiAgent.nl) in
  fold_left (fun retval link => retval +:+ ("  - " +:+ str_url link +:+ ValidatePoiAgent.nl))
            (visited_links message) retval.

(** [_get_error_from_exception(task, e)], for the text [str(e)]. *)
Definition _get_error_from_exception (task : string) (e : string) : string :=
  let answer := mkAnswer task false ("unexpected error occurred: " +:+ e) [] in
  create_final_reply task answer.

End Tool.

(** The number of lines of a text: its line feeds. *)
Definition line_count (text : string) : nat := Py.count (ascii_of_nat 10) text.

(** A web surfer whose chats are canned; an answer is any text that starts
    with an opening brace. *)
Definition canned_parse (s : string) : Answer string + string :=
  match s with
  | String "{" _ => inl (mkAnswer string "task" true s [])
  | _ => inr "Invalid JSON"
  end.

Definition canned_chat (w : list (list Chat.Content)) (clear_history : bool)
           (message : string) : result (list Chat.Content) * list (list Chat.Content) :=
  match w with
  | [] => (Exn, [])
  | history :: rest => (Ok history, rest)
  end.

(** Two canned chats: the first ends with the word TERMINATE beside its
    summary, the second with an answer. *)
Definition chat_terminate : list Chat.Content :=
  [Chat.Text "Collect the data"; Chat.Text "All collected. TERMINATE"].

Definition chat_answer : list Chat.Content :=
  [Chat.Text "Please output the JSON-encoded answer"; Chat.Text "{ok}"].

Definition canned_loop (fuel : nat) (w : list (list Chat.Content)) (msg : string)
           (clear_history : bool) :=
  _chat_with_websurfer string canned_parse "{}" (list (list Chat.Content)) canned_chat
    (fun _ => "Invalid JSON") fuel w msg clear_history.

End WebSurfer.

(* ===================================================================== *)
(** * Properties *)
(* ===================================================================== *)

(** ** The model of [urlparse] on sample URLs *)

Example urlparse_root :
  UrlLib.urlparse "https://example.com/"
  = Some (UrlLib.mkParseResult "https" "example.com" "/" "" "" "").
Proof. reflexivity. Qed.

Example urlparse_bare :
  UrlLib.urlparse "https://example.com"
  = Some (UrlLib.mkParseResult "https" "example.com" "" "" "" "").
Proof. reflexivity. Qed.

Example urlparse_full :
  UrlLib.urlparse "HTTPS://example.com/a;p/b;q?x#y"
  = Some (UrlLib.mkParseResult "https" "example.com" "/a;p/b" "q" "x" "y").
Proof. reflexivity. Qed.

Example urlparse_invalid : UrlLib.urlparse Scenario.bad_url = None.
Proof. reflexivity. Qed.

(** ** Comparisons of binary64 numbers *)

Module FloatOrder.

Lemma SFcompare_antisym x y :
  SFcompare y x = option_map CompOpp (SFcompare x y).
Proof.
  destruct x as [sx| sx| |sx mx ex], y as [sy| sy| |sy my ey]; simpl;
    try reflexivity; try (destruct sx; reflexivity); try (destruct sy; reflexivity);
    try (destruct sx, sy; reflexivity).
  f_equal. change (Pos.compare_cont Eq my mx) with (my ?= mx)%positive.
  change (Pos.compare_cont Eq mx my) with (mx ?= my)%positive.
  rewrite (Z.compare_antisym ex ey), (Pos.compare_antisym mx my).
  destruct sx, sy; simpl; try reflexivity;
    destruct (ex ?= ey)%Z; simpl; try reflexivity;
    destruct (mx ?= my)%positive; reflexivity.
Qed.

(** The comparison is lexicographic on sign, exponent and mantissa; the
    three-way case analysis below settles both transitivity lemmas. *)
Ltac by_lexicographic_cases mx my mz ex ey ez :=
  change (Pos.compare_cont Eq mx my) with (mx ?= my)%positive;
  change (Pos.compare_cont Eq my mz) with (my ?= mz)%positive;
  change (Pos.compare_cont Eq mx mz) with (mx ?= mz)%positive;
  destruct (Z.compare_spec ex ey), (Z.compare_spec ey ez), (Z.compare_spec ex ez);
  simpl; try discriminate; try reflexivity; try lia;
  destruct (Pos.compare_spec mx my), (Pos.compare_spec my mz), (Pos.compare_spec mx mz);
  simpl; try discriminate; try reflexivity; try lia.

Lemma SFleb_trans x y z :
  SFleb x y = true -> SFleb y z = true -> SFleb x z = true.
Proof.
  unfold SFleb.
  destruct x as [sx| sx| |sx mx ex], y as [sy| sy| |sy my ey], z as [sz| sz| |sz mz ez];
    simpl; try discriminate; try reflexivity;
    try (destruct sx; simpl; try discriminate; try reflexivity);
    try (destruct sy; simpl; try discriminate; try reflexivity);
    try (destruct sz; simpl; try discriminate; try reflexivity).
  all: by_lexicographic_cases mx my mz ex ey ez.
Qed.

Lemma SFeqb_trans x y z :
  SFeqb x y = true -> SFeqb y z = true -> SFeqb x z = true.
Proof.
  unfold SFeqb.
  destruct x as [sx| sx| |sx mx ex], y as [sy| sy| |sy my ey], z as [sz| sz| |sz mz ez];
    simpl; try discriminate; try reflexivity;
    try (destruct sx; simpl; try discriminate; try reflexivity);
    try (destruct sy; simpl; try discriminate; try reflexivity);
    try (destruct sz; simpl; try discriminate; try reflexivity).
  all: by_lexicographic_cases mx my mz ex ey ez.
Qed.

Lemma is_nan_false x : is_nan x = false -> Prim2SF x <> S754_nan.
Proof.
  unfold is_nan. rewrite FloatAxioms.eqb_spec. intros H E. rewrite E in H. discriminate.
Qed.

Lemma SFcompare_total x y :
  x <> S754_nan -> y <> S754_nan -> SFcompare x y <> None.
Proof. destruct x, y; simpl; congruence. Qed.

Lemma leb_trans x y z :
  PrimFloat.leb x y = true -> PrimFloat.leb y z = true -> PrimFloat.leb x z = true.
Proof. rewrite !FloatAxioms.leb_spec. apply SFleb_trans. Qed.

Lemma ltb_leb x y : PrimFloat.ltb x y = true -> PrimFloat.leb x y = true.
Proof.
  rewrite FloatAxioms.ltb_spec, FloatAxioms.leb_spec. unfold SFltb, SFleb.
  destruct (SFcompare _ _) as [[]|]; congruence.
Qed.

Lemma leb_not_ltb x y : PrimFloat.leb x y = true -> PrimFloat.ltb y x = false.
Proof.
  rewrite FloatAxioms.ltb_spec, FloatAxioms.leb_spec. unfold SFltb, SFleb.
  rewrite (SFcompare_antisym (Prim2SF x) (Prim2SF y)).
  destruct (SFcompare _ _) as [[]|]; simpl; congruence.
Qed.

Lemma not_ltb_leb x y :
  is_nan x = false -> is_nan y = false ->
  PrimFloat.ltb x y = false -> PrimFloat.leb y x = true.
Proof.
  intros Hx Hy. apply is_nan_false in Hx. apply is_nan_false in Hy.
  rewrite FloatAxioms.ltb_spec, FloatAxioms.leb_spec. unfold SFltb, SFleb.
  rewrite (SFcompare_antisym (Prim2SF x) (Prim2SF y)).
  pose proof (SFcompare_total _ _ Hx Hy).
  destruct (SFcompare _ _) as [[]|]; simpl; congruence.
Qed.

Lemma ltb_irrefl x : PrimFloat.ltb x x = false.
Proof.
  destruct (PrimFloat.ltb x x) eqn:E; [|reflexivity].
  pose proof (leb_not_ltb _ _ (ltb_leb _ _ E)). congruence.
Qed.

Lemma leb_refl x : is_nan x = false -> PrimFloat.leb x x = true.
Proof. intros H. apply not_ltb_leb; auto using ltb_irrefl. Qed.

Lemma ltb_not_nan x y : PrimFloat.ltb x y = true -> is_nan x = false.
Proof.
  unfold is_nan. rewrite FloatAxioms.ltb_spec, FloatAxioms.eqb_spec.
  unfold SFltb, SFeqb.
  destruct (Prim2SF x) as [s|s| |s m e], (Prim2SF y); simpl;
    try discriminate; intros _; try (destruct s; reflexivity).
  all: change (Pos.compare_cont Eq m m) with (m ?= m)%positive;
       rewrite Z.compare_refl, Pos.compare_refl; destruct s; reflexivity.
Qed.

Lemma eqb_trans x y z :
  PrimFloat.eqb x y = true -> PrimFloat.eqb y z = true -> PrimFloat.eqb x z = true.
Proof. rewrite !FloatAxioms.eqb_spec. apply SFeqb_trans. Qed.

Lemma eqb_sym x y : PrimFloat.eqb x y = PrimFloat.eqb y x.
Proof.
  rewrite !FloatAxioms.eqb_spec. unfold SFeqb.
  rewrite (SFcompare_antisym (Prim2SF y) (Prim2SF x)).
  destruct (SFcompare _ _) as [[]|]; reflexivity.
Qed.

Lemma SFmul_comm prec emax x y : SFmul prec emax x y = SFmul prec emax y x.
Proof.
  destruct x as [sx| sx| |sx mx ex], y as [sy| sy| |sy my ey]; simpl;
    rewrite ?(xorb_comm sx sy); try reflexivity.
  rewrite (Pos.mul_comm mx my), (Z.add_comm ex ey). reflexivity.
Qed.

Lemma mul_comm x y : PrimFloat.mul x y = PrimFloat.mul y x.
Proof.
  rewrite <- (SF2Prim_Prim2SF (PrimFloat.mul x y)), <- (SF2Prim_Prim2SF (PrimFloat.mul y x)).
  rewrite !mul_spec. unfold SF64mul. rewrite SFmul_comm. reflexivity.
Qed.

End FloatOrder.

(** ** Python built-ins *)

Lemma split_length c s : length (Py.split c s) = S (Py.count c s).
Proof.
  induction s as [|a s IH]; simpl; [reflexivity|].
  destruct (Ascii.eqb a c); simpl.
  - now rewrite IH.
  - destruct (Py.split c s); simpl in *; [discriminate | exact IH].
Qed.

Lemma path_depth_count path : path_depth path = Z.of_nat (Py.count "/" path).
Proof. unfold path_depth. rewrite split_length. lia. Qed.

Lemma depth_score_of_nat n : depth_score_of (Z.of_nat n) = depth_base n.
Proof.
  destruct n as [|[|[|[|n]]]]; try reflexivity.
  unfold depth_score_of, depth_base.
  repeat match goal with
         | |- context [Z.eqb ?a ?b] => destruct (Z.eqb_spec a b); [lia|]
         end.
  reflexivity.
Qed.

(** ** The priority queue *)

Lemma extract_min_perm x l b r :
  PriorityQueue.extract_min x l = (b, r) -> Permutation (x :: l) (b :: r).
Proof.
  revert x b r. induction l as [|y l IH]; intros x b r; simpl.
  - intros [= <- <-]. reflexivity.
  - destruct (PriorityQueue.extract_min y l) as [b' r'] eqn:E.
    specialize (IH _ _ _ E).
    destruct (ScoredURL.lt b' x); intros [= <- <-].
    + rewrite IH. apply perm_swap.
    + reflexivity.
Qed.

Lemma extract_min_highest x l b r :
  (forall y, In y (x :: l) -> is_nan (ScoredURL.score y) = false) ->
  PriorityQueue.extract_min x l = (b, r) ->
  forall y, In y (x :: l) ->
            PrimFloat.leb (ScoredURL.score y) (ScoredURL.score b) = true.
Proof.
  revert x b r. induction l as [|y0 l IH]; intros x b r Hnan; simpl.
  - intros [= <- <-] y [<-|[]].
    apply FloatOrder.leb_refl, Hnan. now left.
  - destruct (PriorityQueue.extract_min y0 l) as [b' r'] eqn:E.
    assert (Hnan' : forall y, In y (y0 :: l) -> is_nan (ScoredURL.score y) = false)
      by (intros y Hy; apply Hnan; now right).
    pose proof (IH _ _ _ Hnan' E) as IH'.
    assert (Hb' : In b' (y0 :: l)).
    { apply (Permutation_in b' (Permutation_sym (extract_min_perm _ _ _ _ E))).
      now left. }
    unfold ScoredURL.lt. destruct (PrimFloat.ltb _ _) eqn:Hlt; intros [= <- <-] y Hy.
    + destruct Hy as [<-|Hy]; [now apply FloatOrder.ltb_leb | now apply IH'].
    + assert (Hbx : PrimFloat.leb (ScoredURL.score b') (ScoredURL.score x) = true).
      { apply FloatOrder.not_ltb_leb; [apply Hnan; now left | now apply Hnan' | exact Hlt]. }
      destruct Hy as [<-|Hy].
      * apply FloatOrder.leb_refl, Hnan. now left.
      * eapply FloatOrder.leb_trans; [now apply IH' | exact Hbx].
Qed.

Lemma get_perm q entry rest :
  PriorityQueue.get q = Some (entry, rest) -> Permutation q (entry :: rest).
Proof.
  destruct q as [|x l]; simpl; [discriminate|].
  intros [= H]. now apply extract_min_perm.
Qed.

Lemma get_highest q entry rest :
  (forall y, In y q -> is_nan (ScoredURL.score y) = false) ->
  PriorityQueue.get q = Some (entry, rest) ->
  forall y, In y q -> PrimFloat.leb (ScoredURL.score y) (ScoredURL.score entry) = true.
Proof.
  destruct q as [|x l]; simpl; [discriminate|].
  intros Hnan [= H]. now apply (extract_min_highest x l entry rest).
Qed.

Lemma get_not_empty q entry rest :
  PriorityQueue.get q = Some (entry, rest) -> PriorityQueue.empty q = false.
Proof. now destruct q. Qed.

Lemma get_nonempty q : q <> [] -> exists entry rest, PriorityQueue.get q = Some (entry, rest).
Proof.
  destruct q as [|x l]; [congruence|]. intros _. simpl.
  destruct (PriorityQueue.extract_min x l) as [b r]. eauto.
Qed.

(** ** The manager *)

Section Facts.

Variable urlparse : string -> option UrlLib.ParseResult.
Variable py_repr : string -> string.
Variable py_str_float : float -> string.
Variable list_of_set : list Link -> list Link.
Hypothesis list_of_set_perm : forall s, Permutation (list_of_set s) s.
Variable Validator : Type.
Variable validate :
  Validator -> string -> string -> string -> option string ->
  result PoiValidationResult.t * Validator.
Variable ScraperSt : Type.
Variable scraper : ScraperSt -> string -> Script ScraperSt.

Local Abbreviation Manager := (PoiManager Validator).
Local Abbreviation set_queue := (set_url_queue Validator).
Local Abbreviation add_to_queue := (_add_to_queue Validator).
Local Abbreviation should_process_url := (_should_process_url urlparse Validator).
Local Abbreviation calculate_depth_score := (_calculate_depth_score urlparse).
Local Abbreviation process_link := (process_new_url urlparse Validator).
Local Abbreviation for_each := (for_each_new_url urlparse Validator).
Local Abbreviation process_new_urls := (_process_new_urls urlparse Validator).
Local Abbreviation entries_for := (pushed_for urlparse Validator).
Local Abbreviation reg_poi := (register_poi py_repr Validator validate).
Local Abbreviation reg_link := (register_link py_str_float Validator).
Local Abbreviation run_scraper := (run_script py_repr py_str_float Validator validate ScraperSt).
Local Abbreviation step :=
  (iteration urlparse py_repr py_str_float list_of_set Validator validate ScraperSt scraper).
Local Abbreviation steps :=
  (iterate urlparse py_repr py_str_float list_of_set Validator validate ScraperSt scraper).
Local Abbreviation loop :=
  (crawl urlparse py_repr py_str_float list_of_set Validator validate ScraperSt scraper).
Local Abbreviation run_process :=
  (run urlparse py_repr py_str_float list_of_set Validator validate ScraperSt scraper).
Local Abbreviation process_result :=
  (process urlparse py_repr py_str_float list_of_set Validator validate ScraperSt scraper).
Local Abbreviation is_validated := (validated Validator validate).
Local Abbreviation in_domain := (frontier_in_domain urlparse Validator).

(** *** One link of [_process_new_urls] *)

Lemma set_queue_same (m : Manager) : set_queue m (url_queue m) = m.
Proof. now destruct m. Qed.

(** Whatever happens, the only effect of the loop body is to push the
    entry that passes the tests, if there is one. *)
Lemma process_link_state (m : Manager) link :
  snd (process_link m link) = set_queue m (url_queue m ++ entries_for m link).
Proof.
  destruct link as [url ai]. unfold process_new_url, pushed_for, _should_process_url,
    _calculate_depth_score. simpl.
  destruct (PrimFloat.ltb ai 0.5); simpl.
  { now rewrite app_nil_r, set_queue_same. }
  destruct (bool_decide (url ∈ visited_urls m)); simpl.
  { now rewrite app_nil_r, set_queue_same. }
  destruct (urlparse url) as [parsed|]; simpl.
  - destruct (String.eqb _ _); simpl; [reflexivity|].
    now rewrite app_nil_r, set_queue_same.
  - now rewrite app_nil_r, set_queue_same.
Qed.

(** The loop body raises exactly when the URL has to be parsed and
    [urlparse] raises. *)
Lemma process_link_raises (m : Manager) url ai :
  fst (process_link m (url, ai)) = Exn <->
  PrimFloat.ltb ai 0.5 = false /\ (url ∉ visited_urls m) /\ urlparse url = None.
Proof.
  unfold process_new_url, _should_process_url, _calculate_depth_score.
  destruct (PrimFloat.ltb ai 0.5); simpl.
  { split; [discriminate | intros [? _]; discriminate]. }
  destruct (bool_decide_reflect (url ∈ visited_urls m)) as [Hv|Hv]; simpl.
  { split; [discriminate | intros (_ & ? & _); contradiction]. }
  destruct (urlparse url) as [parsed|]; simpl.
  - destruct (String.eqb _ _); simpl;
      (split; [discriminate | intros (_ & _ & ?); discriminate]).
  - split; [intros _ | reflexivity].
    split; [reflexivity|]. split; [exact Hv | reflexivity].
Qed.

(** The only exception of the loop body is the [ValueError] of [urlparse],
    an instance of [Exception]. *)
Lemma process_link_not_base (m : Manager) link : fst (process_link m link) <> BaseExn.
Proof.
  destruct link as [url ai].
  unfold process_new_url, _should_process_url, _calculate_depth_score.
  destruct (PrimFloat.ltb ai 0.5); simpl; [discriminate|].
  destruct (bool_decide (url ∈ visited_urls m)); simpl; [discriminate|].
  destruct (urlparse url) as [parsed|]; simpl; [|discriminate].
  destruct (String.eqb _ _); simpl; discriminate.
Qed.

Lemma entries_for_frame (m m' : Manager) link :
  visited_urls m' = visited_urls m -> base_domain m' = base_domain m ->
  entries_for m' link = entries_for m link.
Proof. unfold pushed_for. now intros -> ->. Qed.

(** Every entry that passes the tests is for a URL of the seed's domain that
    has not been visited, reported with a score that is not below 0.5, and
    carries the combined score. *)
Lemma entries_for_inv (m : Manager) link e :
  In e (entries_for m link) ->
  PrimFloat.ltb (snd link) 0.5 = false
  /\ (fst link ∉ visited_urls m)
  /\ exists parsed, urlparse (fst link) = Some parsed
       /\ UrlLib.netloc parsed = base_domain m
       /\ e = ScoredURL.mk (fst link)
                (_calculate_final_score (snd link)
                   (depth_score_of (path_depth (UrlLib.path parsed)))).
Proof.
  unfold pushed_for.
  destruct (PrimFloat.ltb (snd link) 0.5); [intros []|].
  destruct (bool_decide_reflect (fst link ∈ visited_urls m)); [intros []|].
  destruct (urlparse (fst link)) as [parsed|]; [|intros []].
  destruct (String.eqb_spec (UrlLib.netloc parsed) (base_domain m)); [|intros []].
  intros [<-|[]]. repeat split; eauto.
Qed.

(** *** The [for] loop of [_process_new_urls] *)

Lemma for_each_state links : forall (m : Manager),
  exists processed rest,
    links = processed ++ rest
    /\ snd (for_each links m)
       = set_queue m (url_queue m ++ flat_map (entries_for m) processed)
    /\ (fst (for_each links m) = Ok tt -> rest = []).
Proof.
  induction links as [|link links IH]; intros m; simpl.
  - exists [], []. simpl. now rewrite app_nil_r, set_queue_same.
  - pose proof (process_link_state m link) as Hst.
    pose proof (process_link_not_base m link) as Hnb.
    destruct (process_link m link) as [[[]| |] m1]; simpl in Hst; subst m1.
    + destruct (IH (set_queue m (url_queue m ++ entries_for m link)))
        as (processed & rest & -> & Hq & Hok).
      exists (link :: processed), rest. split; [reflexivity|]. split; [|exact Hok].
      rewrite Hq. simpl. rewrite <- app_assoc.
      rewrite (flat_map_ext _ (entries_for m)); [reflexivity|].
      intros l. now apply entries_for_frame.
    + exists [link], links. split; [reflexivity|]. split; [|discriminate].
      simpl. now rewrite app_nil_r.
    + now destruct Hnb.
Qed.

Lemma for_each_not_base links : forall (m : Manager), fst (for_each links m) <> BaseExn.
Proof.
  induction links as [|link links IH]; intros m; simpl; [discriminate|].
  pose proof (process_link_not_base m link) as Hnb.
  destruct (process_link m link) as [[[]| |] m1]; simpl in *;
    [apply IH | discriminate | congruence].
Qed.

Lemma for_each_ok links (m m' : Manager) :
  for_each links m = (Ok tt, m') ->
  m' = set_queue m (url_queue m ++ flat_map (entries_for m) links).
Proof.
  intros H. destruct (for_each_state links m) as (processed & rest & -> & Hq & Hok).
  rewrite H in Hq, Hok. simpl in Hq. rewrite (Hok eq_refl), app_nil_r. exact Hq.
Qed.

(** *** Scores *)

(** C4 (amended): the depth the link scorer uses is the number of ["/"]
    characters in the path of the URL (one less than the number of pieces
    [split("/")] yields, empty pieces included), and the base depth score is
    0.0, 0.3, 0.5, 0.7 and 0.9 for depth 0, 1, 2, 3 and 4 or more; it depends
    on the path only, so two URLs with the same path get the same score
    whatever their scheme and host. *)
Theorem C4_depth_score_counts_slashes url parsed :
  urlparse url = Some parsed ->
  path_depth (UrlLib.path parsed) = Z.of_nat (Py.count "/" (UrlLib.path parsed))
  /\ calculate_depth_score url = Ok (depth_base (Py.count "/" (UrlLib.path parsed)))
  /\ (forall url' parsed',
        urlparse url' = Some parsed' ->
        UrlLib.path parsed' = UrlLib.path parsed ->
        calculate_depth_score url' = calculate_depth_score url).
Proof.
  intros H. split; [apply path_depth_count|]. split.
  - unfold _calculate_depth_score. rewrite H, path_depth_count.
    now rewrite depth_score_of_nat.
  - intros url' parsed' H' Hp. unfold _calculate_depth_score.
    now rewrite H, H', Hp.
Qed.


(** *** What a scraper invocation can change *)

Local Abbreviation set_current := (set_current_url_links_with_scores Validator).
Local Abbreviation set_visited := (set_visited_urls Validator).
Local Abbreviation newly_reported := (new_links list_of_set Validator).

Lemma reg_poi_frame (m : Manager) poi :
  let m' := snd (reg_poi m poi) in
  base_url m' = base_url m /\ base_domain m' = base_domain m
  /\ visited_urls m' = visited_urls m /\ url_queue m' = url_queue m
  /\ _current_url_links_with_scores m' = _current_url_links_with_scores m
  /\ all_links_with_scores m' = all_links_with_scores m.
Proof.
  unfold register_poi.
  destruct (validate _ _ _ _ _) as [[verdict| |] v]; simpl; [|tauto|tauto].
  destruct (PoiValidationResult.is_valid verdict); simpl; tauto.
Qed.

Lemma reg_poi_validated (m : Manager) poi :
  (forall n e, poi_list m !! n = Some e -> is_validated n e) ->
  forall n e, poi_list (snd (reg_poi m poi)) !! n = Some e -> is_validated n e.
Proof.
  intros Hm n e. unfold register_poi.
  destruct (validate _ _ _ _ _) as [[verdict| |] v] eqn:Hv; simpl; [|apply Hm|apply Hm].
  destruct (PoiValidationResult.is_valid verdict) eqn:Hvalid; simpl; [|apply Hm].
  destruct (decide (PoiData.name poi = n)) as [<-|Hne].
  - rewrite lookup_insert_eq. intros [= <-].
    exists (poi_validator m), v, poi, verdict. auto.
  - rewrite lookup_insert_ne by exact Hne. apply Hm.
Qed.

Lemma run_scraper_frame sc : forall (m : Manager),
  let m' := snd (run_scraper sc m) in
  base_url m' = base_url m /\ base_domain m' = base_domain m
  /\ visited_urls m' = visited_urls m /\ url_queue m' = url_queue m
  /\ _current_url_links_with_scores m' = _current_url_links_with_scores m
  /\ exists reported, all_links_with_scores m' = all_links_with_scores m ++ reported.
Proof.
  induction sc as [s|s|s|poi k IH|url score k IH]; intros m; simpl.
  - repeat split; try reflexivity. exists []. now rewrite app_nil_r.
  - repeat split; try reflexivity. exists []. now rewrite app_nil_r.
  - repeat split; try reflexivity. exists []. now rewrite app_nil_r.
  - pose proof (reg_poi_frame m poi) as Hf. simpl in Hf.
    destruct (reg_poi m poi) as [outcome m1]; simpl in Hf;
      destruct Hf as (H1 & H2 & H3 & H4 & H5 & H6);
      specialize (IH outcome m1);
      simpl in IH; destruct IH as (I1 & I2 & I3 & I4 & I5 & reported & I6);
      (repeat split; [congruence..|]); exists reported; congruence.
  - specialize (IH ("Link registered: " +:+ url +:+ ", AI score: " +:+ py_str_float score)
                   (set_all_links_with_scores Validator m
                      (all_links_with_scores m ++ [(url, score)]))).
    simpl in IH. destruct IH as (I1 & I2 & I3 & I4 & I5 & reported & I6).
    repeat split; try assumption.
    exists ((url, score) :: reported). rewrite I6, <- app_assoc. reflexivity.
Qed.

Lemma run_scraper_validated sc : forall (m : Manager),
  (forall n e, poi_list m !! n = Some e -> is_validated n e) ->
  forall n e, poi_list (snd (run_scraper sc m)) !! n = Some e -> is_validated n e.
Proof.
  induction sc as [s|s|s|poi k IH|url score k IH]; intros m Hm; simpl; try exact Hm.
  - pose proof (reg_poi_validated m poi Hm) as Hv.
    destruct (reg_poi m poi) as [outcome m1]; simpl in Hv; now apply IH.
  - now apply IH.
Qed.

(** The log after an invocation is the log before it followed by the pairs
    of its [register_link] calls. *)
Lemma run_scraper_log sc : forall (m : Manager),
  all_links_with_scores (snd (run_scraper sc m))
  = all_links_with_scores m
    ++ registered_links py_repr py_str_float Validator validate ScraperSt sc m.
Proof.
  induction sc as [s|s|s|poi k IH|url score k IH]; intros m; simpl;
    try (now rewrite app_nil_r).
  - pose proof (reg_poi_frame m poi) as Hf. simpl in Hf.
    destruct (reg_poi m poi) as [outcome m1]. simpl in Hf.
    destruct Hf as (_ & _ & _ & _ & _ & H6). now rewrite IH, H6.
  - rewrite IH. simpl. now rewrite <- app_assoc.
Qed.

(** *** One iteration of the loop *)

Lemma step_empty (m : Manager) s : step m s = None <-> url_queue m = [].
Proof.
  unfold iteration. destruct (url_queue m) as [|x l] eqn:E; simpl; [tauto|].
  destruct (PriorityQueue.extract_min x l) as [entry q].
  split; [|discriminate].
  destruct (bool_decide _); [discriminate|].
  destruct (run_script _ _ _ _ _ _ _) as [[[[]| |] s1] m1]; [|discriminate|discriminate].
  destruct (_process_new_urls _ _ _) as [[[]| |] m2]; discriminate.
Qed.

(** The five ways an iteration can go.  The exception that leaves the loop
    is one of the scraper call: [_process_new_urls] raises instances of
    [Exception] only. *)
Lemma step_inv (m : Manager) s e m' s' :
  step m s = Some (e, m', s') ->
  exists entry q,
    PriorityQueue.get (url_queue m) = Some (entry, q)
    /\ ev_url e = ScoredURL.url entry
    /\ match ev_outcome e with
       | Skipped =>
           ScoredURL.url entry ∈ visited_urls m /\ m' = set_queue m q /\ s' = s
       | ScraperRaised =>
           (ScoredURL.url entry ∉ visited_urls m)
           /\ run_scraper (scraper s (ScoredURL.url entry)) (set_queue m q) = (Exn, s', m')
       | LinksRaised new =>
           (ScoredURL.url entry ∉ visited_urls m)
           /\ exists m1,
                run_scraper (scraper s (ScoredURL.url entry)) (set_queue m q) = (Ok tt, s', m1)
                /\ new = newly_reported m1
                /\ for_each new (set_current m1 new) = (Exn, m')
       | Visited new =>
           (ScoredURL.url entry ∉ visited_urls m)
           /\ exists m1 m2,
                run_scraper (scraper s (ScoredURL.url entry)) (set_queue m q) = (Ok tt, s', m1)
                /\ new = newly_reported m1
                /\ for_each new (set_current m1 new) = (Ok tt, m2)
                /\ m' = set_visited m2 ({[ScoredURL.url entry]} ∪ visited_urls m2)
       | Propagated =>
           (ScoredURL.url entry ∉ visited_urls m)
           /\ run_scraper (scraper s (ScoredURL.url entry)) (set_queue m q)
              = (BaseExn, s', m')
       end.
Proof.
  unfold iteration.
  destruct (PriorityQueue.get (url_queue m)) as [[entry q]|] eqn:Hget;
    [|now destruct (PriorityQueue.empty _)].
  rewrite (get_not_empty _ _ _ Hget).
  simpl. destruct (bool_decide_reflect (ScoredURL.url entry ∈ visited_urls m)) as [Hv|Hv].
  { intros [= <- <- <-]. exists entry, q. simpl. auto. }
  destruct (run_script _ _ _ _ _ _ _) as [[[[]| |] s1] m1] eqn:Hrun.
  - unfold _process_new_urls. simpl.
    pose proof (for_each_not_base (newly_reported m1) (set_current m1 (newly_reported m1)))
      as Hnb.
    destruct (for_each _ _) as [[[]| |] m2] eqn:Hfor; [| |now destruct Hnb];
      intros [= <- <- <-];
      exists entry, q; simpl; (split; [reflexivity|]); (split; [reflexivity|]);
      (split; [exact Hv|]).
    + exists m1, m2. auto.
    + exists m1. auto.
  - intros [= <- <- <-]. exists entry, q. simpl. auto.
  - intros [= <- <- <-]. exists entry, q. simpl. auto.
Qed.

(** An iteration changes neither the base URL nor the base domain; the
    visited set only grows, and only by the URL of a completed iteration. *)
Lemma step_frame (m : Manager) s e m' s' :
  step m s = Some (e, m', s') ->
  base_url m' = base_url m /\ base_domain m' = base_domain m
  /\ visited_urls m'
     = (if completed e then {[ev_url e]} ∪ visited_urls m else visited_urls m).
Proof.
  intros H. destruct (step_inv _ _ _ _ _ H) as (entry & q & Hget & Hurl & Hcase).
  unfold completed. destruct (ev_outcome e) as [| |new|new|].
  - destruct Hcase as (_ & -> & _). auto.
  - destruct Hcase as (_ & Hrun).
    pose proof (run_scraper_frame (scraper s (ScoredURL.url entry)) (set_queue m q)) as F.
    rewrite Hrun in F. simpl in F. tauto.
  - destruct Hcase as (_ & m1 & Hrun & _ & Hfor).
    pose proof (run_scraper_frame (scraper s (ScoredURL.url entry)) (set_queue m q)) as F.
    rewrite Hrun in F. simpl in F. destruct F as (F1 & F2 & F3 & _).
    destruct (for_each_state new (set_current m1 new)) as (pr & rest & _ & Hst & _).
    rewrite Hfor in Hst. simpl in Hst. subst m'. simpl. auto.
  - destruct Hcase as (_ & m1 & m2 & Hrun & _ & Hfor & ->).
    pose proof (run_scraper_frame (scraper s (ScoredURL.url entry)) (set_queue m q)) as F.
    rewrite Hrun in F. simpl in F. destruct F as (F1 & F2 & F3 & _).
    apply for_each_ok in Hfor. subst m2. simpl. rewrite Hurl, F3. auto.
  - destruct Hcase as (_ & Hrun).
    pose proof (run_scraper_frame (scraper s (ScoredURL.url entry)) (set_queue m q)) as F.
    rewrite Hrun in F. simpl in F. tauto.
Qed.

(** The registry is the one the scraper invocation left. *)
Lemma step_validated (m : Manager) s e m' s' :
  step m s = Some (e, m', s') ->
  (forall n x, poi_list m !! n = Some x -> is_validated n x) ->
  forall n x, poi_list m' !! n = Some x -> is_validated n x.
Proof.
  intros H Hm. destruct (step_inv _ _ _ _ _ H) as (entry & q & Hget & Hurl & Hcase).
  pose proof (run_scraper_validated (scraper s (ScoredURL.url entry)) (set_queue m q) Hm) as V.
  destruct (ev_outcome e) as [| |new|new|].
  - destruct Hcase as (_ & -> & _). exact Hm.
  - destruct Hcase as (_ & Hrun). now rewrite Hrun in V.
  - destruct Hcase as (_ & m1 & Hrun & _ & Hfor). rewrite Hrun in V. simpl in V.
    destruct (for_each_state new (set_current m1 new)) as (pr & rest & _ & Hst & _).
    rewrite Hfor in Hst. simpl in Hst. subst m'. exact V.
  - destruct Hcase as (_ & m1 & m2 & Hrun & _ & Hfor & ->). rewrite Hrun in V. simpl in V.
    apply for_each_ok in Hfor. subst m2. exact V.
  - destruct Hcase as (_ & Hrun). now rewrite Hrun in V.
Qed.

Lemma step_frontier_in_domain (m : Manager) s e m' s' :
  step m s = Some (e, m', s') -> in_domain m -> in_domain m'.
Proof.
  unfold frontier_in_domain.
  intros H Hm. destruct (step_inv _ _ _ _ _ H) as (entry & q & Hget & Hurl & Hcase).
  assert (Hq : forall x, In x q -> exists parsed,
               urlparse (ScoredURL.url x) = Some parsed
               /\ UrlLib.netloc parsed = base_domain m).
  { intros x Hx. apply Hm.
    apply (Permutation_in x (Permutation_sym (get_perm _ _ _ Hget))). now right. }
  pose proof (run_scraper_frame (scraper s (ScoredURL.url entry)) (set_queue m q)) as F.
  simpl in F.
  assert (Hpush : forall m1 new done x,
            base_domain m1 = base_domain m -> url_queue m1 = q ->
            In x (url_queue m1 ++ flat_map (entries_for (set_current m1 new)) done) ->
            exists parsed, urlparse (ScoredURL.url x) = Some parsed
                           /\ UrlLib.netloc parsed = base_domain m).
  { intros m1 new done x Hd Hq1 Hx. apply in_app_iff in Hx. destruct Hx as [Hx|Hx].
    - apply Hq. now rewrite <- Hq1.
    - apply in_flat_map in Hx. destruct Hx as (l & _ & Hx).
      apply entries_for_inv in Hx. destruct Hx as (_ & _ & parsed & Hp & Hn & ->).
      exists parsed. simpl in *. split; [exact Hp | congruence]. }
  destruct (ev_outcome e) as [| |new|new|].
  - destruct Hcase as (_ & -> & _). exact Hq.
  - destruct Hcase as (_ & Hrun). rewrite Hrun in F. simpl in F.
    destruct F as (_ & F2 & _ & F4 & _). rewrite F2, F4. exact Hq.
  - destruct Hcase as (_ & m1 & Hrun & _ & Hfor). rewrite Hrun in F. simpl in F.
    destruct F as (_ & F2 & _ & F4 & _).
    destruct (for_each_state new (set_current m1 new)) as (pr & rest & _ & Hst & _).
    rewrite Hfor in Hst. simpl in Hst. subst m'. simpl. rewrite F2.
    intros x Hx. now apply (Hpush m1 new pr x).
  - destruct Hcase as (_ & m1 & m2 & Hrun & _ & Hfor & ->). rewrite Hrun in F. simpl in F.
    destruct F as (_ & F2 & _ & F4 & _).
    apply for_each_ok in Hfor. subst m2. simpl. rewrite F2.
    intros x Hx. now apply (Hpush m1 new new x).
  - destruct Hcase as (_ & Hrun). rewrite Hrun in F. simpl in F.
    destruct F as (_ & F2 & _ & F4 & _). rewrite F2, F4. exact Hq.
Qed.

(** *** Sequences of iterations *)

Lemma steps_S n (m : Manager) s es m2 s2 :
  steps (S n) m s = Some (es, m2, s2) ->
  exists e es' m1 s1,
    step m s = Some (e, m1, s1)
    /\ steps n m1 s1 = Some (es', m2, s2)
    /\ es = e :: es'.
Proof.
  simpl. destruct (step m s) as [[[e m1] s1]|]; [|discriminate].
  destruct n as [|n], (propagated e); try discriminate;
    (destruct (steps _ m1 s1) as [[[es' m'] s'']|] eqn:E; [|discriminate]);
    intros [= <- <- <-]; exists e, es', m1, s1; auto.
Qed.

(** An iteration whose exception leaves the loop is the last one. *)
Lemma steps_propagated_last n : forall (m : Manager) s es m' s' e,
  steps n m s = Some (es, m', s') -> In e es -> propagated e = true ->
  last es = Some e.
Proof.
  induction n as [|n IH]; intros m s es m' s' e H Hin Hp.
  - simpl in H. injection H as <- <- <-. destruct Hin.
  - simpl in H. destruct (step m s) as [[[e1 m1] s1]|]; [|discriminate].
    destruct n as [|n].
    + simpl in H. destruct (propagated e1); injection H as <- <- <-;
        destruct Hin as [<-|[]]; reflexivity.
    + destruct (propagated e1) eqn:Hp1; [discriminate|].
      destruct (steps (S n) m1 s1) as [[[es1 m2] s2]|] eqn:E; [|discriminate].
      injection H as <- <- <-. destruct Hin as [<-|Hin]; [congruence|].
      pose proof (IH _ _ _ _ _ _ E Hin Hp) as Hl.
      destruct es1 as [|x es1]; [destruct Hin | exact Hl].
Qed.

(** A finished loop is a sequence of iterations.  When the loop ends at its
    test, the queue is empty and no iteration let an exception through;
    otherwise the last iteration did; the loop is never left with an
    instance of [Exception]. *)
Lemma loop_steps fuel : forall (m : Manager) s r es m' s',
  loop fuel m s = Some (r, es, m', s') ->
  steps (length es) m s = Some (es, m', s')
  /\ match r with
     | Ok _ => url_queue m' = [] /\ (forall e, In e es -> propagated e = false)
     | Exn => False
     | BaseExn => exists e, last es = Some e /\ propagated e = true
     end.
Proof.
  induction fuel as [|fuel IH]; intros m s r es m' s'; simpl; [discriminate|].
  destruct (step m s) as [[[e m1] s1]|] eqn:Hstep.
  - destruct (propagated e) eqn:Hp.
    + intros [= <- <- <- <-]. simpl. rewrite Hstep. split; [reflexivity|].
      exists e. auto.
    + destruct (loop fuel m1 s1) as [[[[r1 es1] m2] s2]|] eqn:Hloop; [|discriminate].
      intros [= <- <- <- <-]. destruct (IH _ _ _ _ _ _ Hloop) as [Hs Hr].
      split.
      * simpl. rewrite Hstep, Hp, Hs. now destruct (length es1).
      * destruct r1 as [[]| |]; [|exact Hr|].
        -- destruct Hr as [Hq Hno]. split; [exact Hq|].
           intros e' [<-|He']; [exact Hp | now apply Hno].
        -- destruct Hr as (e' & Hl & He'). exists e'. split; [|exact He'].
           destruct es1 as [|x es1]; [discriminate | exact Hl].
  - intros [= <- <- <- <-]. split; [reflexivity|].
    split; [now apply step_empty in Hstep | intros e []].
Qed.

(** A property that every iteration keeps holds after any number of them. *)
Lemma steps_invariant (P : Manager -> Prop) :
  (forall m s e m' s', step m s = Some (e, m', s') -> P m -> P m') ->
  forall n m s es m' s', steps n m s = Some (es, m', s') -> P m -> P m'.
Proof.
  intros Hstep. induction n as [|n IH]; intros m s es m' s' H Hm.
  - simpl in H. injection H as <- <- <-. exact Hm.
  - destruct (steps_S _ _ _ _ _ _ H) as (e & es' & m1 & s1 & H1 & H2 & _).
    eapply IH; [exact H2|]. eapply Hstep; eauto.
Qed.

Lemma steps_visited_once n : forall (m : Manager) s es m' s',
  steps n m s = Some (es, m', s') -> visited_once (visited_urls m) es.
Proof.
  induction n as [|n IH]; intros m s es m' s' H.
  - simpl in H. injection H as <- <- <-. exact I.
  - destruct (steps_S _ _ _ _ _ _ H) as (e & es' & m1 & s1 & H1 & H2 & ->).
    simpl. split.
    + intros Hin. destruct (step_inv _ _ _ _ _ H1) as (entry & q & _ & Hurl & Hcase).
      rewrite Hurl in Hin.
      destruct (ev_outcome e); [reflexivity| | | |]; simpl in Hcase;
        destruct Hcase as [Hv _]; contradiction.
    + destruct (step_frame _ _ _ _ _ H1) as (_ & _ & <-). eapply IH, H2.
Qed.

Lemma visited_once_seen es : forall seen u,
  visited_once seen es -> u ∈ seen ->
  forall e, In e es -> ev_url e = u -> ev_outcome e = Skipped.
Proof.
  induction es as [|e0 es IH]; intros seen u H Hu e He Hurl; [destruct He|].
  destruct He as [<-|He].
  - apply H. now rewrite Hurl.
  - destruct H as [_ H]. eapply IH; [exact H| |exact He|exact Hurl].
    destruct (completed e0); [apply elem_of_union_r|]; exact Hu.
Qed.

Lemma visited_once_after es1 : forall seen e es2,
  visited_once seen (es1 ++ e :: es2) -> completed e = true ->
  forall e', In e' es2 -> ev_url e' = ev_url e -> ev_outcome e' = Skipped.
Proof.
  induction es1 as [|e1 es1 IH]; intros seen e es2 H Hc e' He' Hurl.
  - destruct H as [_ H]. rewrite Hc in H.
    eapply visited_once_seen; [exact H| |exact He'|exact Hurl].
    now apply elem_of_union_l, elem_of_singleton.
  - destruct H as [_ H]. eapply IH; eauto.
Qed.

Lemma visited_once_nodup es : forall seen,
  visited_once seen es ->
  List.NoDup (map ev_url (List.filter completed es))
  /\ forall e, In e es -> completed e = true -> ev_url e ∉ seen.
Proof.
  induction es as [|e es IH]; intros seen H; simpl.
  - split; [constructor | intros e []].
  - destruct H as [Hhead Htail].
    destruct (IH _ Htail) as [Hnd Hnot]. destruct (completed e) eqn:Hc.
    + split.
      * simpl. constructor; [|exact Hnd]. intros Hin. apply in_map_iff in Hin.
        destruct Hin as (e' & Hurl & Hin). apply filter_In in Hin. destruct Hin as [Hin Hc'].
        apply (Hnot e' Hin Hc'). rewrite Hurl.
        now apply elem_of_union_l, elem_of_singleton.
      * intros e' [<-|Hin] Hc'.
        -- intros Hseen. apply Hhead in Hseen. unfold completed in Hc. now rewrite Hseen in Hc.
        -- intros Hseen. apply (Hnot e' Hin Hc'). now apply elem_of_union_r.
    + split; [exact Hnd|]. intros e' [<-|Hin] Hc'; [congruence|]. now apply Hnot.
Qed.

Lemma list_of_set_nil : list_of_set [] = [].
Proof. apply Permutation_nil, Permutation_sym, list_of_set_perm. Qed.

(** *** The claims on the loop *)

(** C2 (amended): when the scraper call for the popped URL raises an
    exception that is an instance of [Exception], the iteration ends there:
    the URL is not added to the visited set, the frontier is the queue left
    by the pop (nothing is pushed), the loop goes on with the next pop from
    that state, and what [process] does is what the rest of the loop does.
    When the exception is not an instance of [Exception], the clause does
    not catch it: the URL is not visited and nothing is pushed either, but
    the loop is left and the exception leaves [process].  Whatever the loop
    does, it is never left with an instance of [Exception], and it is left
    with another exception exactly when an iteration let one through. *)
Theorem C2_scraper_exception_is_absorbed (m : Manager) s entry q s' m' :
  PriorityQueue.get (url_queue m) = Some (entry, q) ->
  ScoredURL.url entry ∉ visited_urls m ->
  (run_script py_repr py_str_float Validator validate ScraperSt
     (scraper s (ScoredURL.url entry)) (set_queue m q) = (Exn, s', m') ->
   step m s = Some (mkEvent (ScoredURL.url entry) ScraperRaised, m', s')
   /\ visited_urls m' = visited_urls m
   /\ (ScoredURL.url entry ∉ visited_urls m')
   /\ url_queue m' = q
   /\ (forall fuel,
         loop (S fuel) m s
         = match loop fuel m' s' with
           | None => None
           | Some (r, es, m'', s'') =>
               Some (r, mkEvent (ScoredURL.url entry) ScraperRaised :: es, m'', s'')
           end))
  /\ (run_script py_repr py_str_float Validator validate ScraperSt
        (scraper s (ScoredURL.url entry)) (set_queue m q) = (BaseExn, s', m') ->
      step m s = Some (mkEvent (ScoredURL.url entry) Propagated, m', s')
      /\ visited_urls m' = visited_urls m
      /\ (ScoredURL.url entry ∉ visited_urls m')
      /\ url_queue m' = q
      /\ (forall fuel,
            loop (S fuel) m s
            = Some (BaseExn, [mkEvent (ScoredURL.url entry) Propagated], m', s')))
  /\ (forall fuel (m0 : Manager) s0 r es m1 s1,
        loop fuel m0 s0 = Some (r, es, m1, s1) ->
        r <> Exn
        /\ (r = BaseExn <-> exists e, In e es /\ ev_outcome e = Propagated))
  /\ (forall fuel (m0 : Manager) s0, process_result fuel m0 s0 <> Some Exn).
Proof.
  intros Hget Hv.
  pose proof (run_scraper_frame (scraper s (ScoredURL.url entry)) (set_queue m q)) as F.
  assert (Hloop : forall fuel (m0 : Manager) s0 r es m1 s1,
            loop fuel m0 s0 = Some (r, es, m1, s1) ->
            r <> Exn
            /\ (r = BaseExn <-> exists e, In e es /\ ev_outcome e = Propagated)).
  { intros fuel m0 s0 r es m1 s1 H. apply loop_steps in H. destruct H as [_ H].
    destruct r as [[]| |]; [|destruct H|].
    - destruct H as [_ Hno]. split; [discriminate|]. split; [discriminate|].
      intros (e & He & Ho). specialize (Hno e He). unfold propagated in Hno.
      rewrite Ho in Hno. discriminate.
    - destruct H as (e & Hl & Hp). split; [discriminate|]. split; [|reflexivity].
      intros _. exists e. split.
      + apply last_Some in Hl. destruct Hl as (l' & ->). apply in_app_iff. right. now left.
      + unfold propagated in Hp. now destruct (ev_outcome e). }
  split; [|split; [|split; [exact Hloop|]]].
  - intros Hrun.
    assert (Hstep : step m s = Some (mkEvent (ScoredURL.url entry) ScraperRaised, m', s')).
    { unfold iteration. rewrite Hget, (get_not_empty _ _ _ Hget). simpl.
      rewrite (bool_decide_eq_false_2 _ Hv). now rewrite Hrun. }
    rewrite Hrun in F. simpl in F. destruct F as (_ & _ & F3 & F4 & _).
    split; [exact Hstep|]. split; [exact F3|]. split; [now rewrite F3|].
    split; [exact F4|].
    intros fuel. simpl. now rewrite Hstep.
  - intros Hrun.
    assert (Hstep : step m s = Some (mkEvent (ScoredURL.url entry) Propagated, m', s')).
    { unfold iteration. rewrite Hget, (get_not_empty _ _ _ Hget). simpl.
      rewrite (bool_decide_eq_false_2 _ Hv). now rewrite Hrun. }
    rewrite Hrun in F. simpl in F. destruct F as (_ & _ & F3 & F4 & _).
    split; [exact Hstep|]. split; [exact F3|]. split; [now rewrite F3|].
    split; [exact F4|].
    intros fuel. simpl. now rewrite Hstep.
  - intros fuel m0 s0. unfold process, run.
    destruct (loop fuel _ s0) as [[[[r es] m1] s1]|] eqn:E; [|discriminate].
    destruct (Hloop _ _ _ _ _ _ _ E) as [Hr _].
    destruct r as [x| |]; [discriminate | now destruct Hr | discriminate].
Qed.

(** C3: with a verdict [is_valid = False], [register_poi] leaves the registry
    as it was and returns the rejection message, which quotes the name of the
    candidate; with [is_valid = True] it stores description, category and
    location under the name, replacing an earlier entry; and in every state
    of a crawl, each entry of the registry is one for which the validator
    returned [is_valid = True]. *)
Theorem C3_registry_gate :
  (forall (m : Manager) poi verdict v,
     validate (poi_validator m) (PoiData.name poi) (PoiData.description poi)
              (PoiData.category poi) (PoiData.location poi) = (Ok verdict, v) ->
     PoiValidationResult.is_valid verdict = false ->
     reg_poi m poi
     = (Ok ("POI validation failed for: (" +:+ py_repr (PoiData.name poi) +:+ ", "
            +:+ py_repr (PoiData.description poi) +:+ ")"),
        set_poi_validator Validator m v)
     /\ poi_list (snd (reg_poi m poi)) = poi_list m)
  /\ (forall (m : Manager) poi verdict v,
        validate (poi_validator m) (PoiData.name poi) (PoiData.description poi)
                 (PoiData.category poi) (PoiData.location poi) = (Ok verdict, v) ->
        PoiValidationResult.is_valid verdict = true ->
        poi_list (snd (reg_poi m poi))
        = <[PoiData.name poi :=
              PoiEntry.mk (PoiData.description poi) (PoiData.category poi)
                          (PoiData.location poi)]> (poi_list m)
        /\ poi_list (snd (reg_poi m poi)) !! PoiData.name poi
           = Some (PoiEntry.mk (PoiData.description poi) (PoiData.category poi)
                               (PoiData.location poi)))
  /\ (forall base v (m : Manager) s n es m' s',
        init urlparse Validator base v = Ok m ->
        steps n (add_to_queue m (base_url m) 1.0) s = Some (es, m', s') ->
        forall name e, poi_list m' !! name = Some e -> is_validated name e).
Proof.
  split; [|split].
  - intros m poi verdict v Hv Hvalid. unfold register_poi.
    rewrite Hv, Hvalid. simpl. split; reflexivity.
  - intros m poi verdict v Hv Hvalid. unfold register_poi.
    rewrite Hv, Hvalid. simpl. split; [reflexivity|]. apply lookup_insert_eq.
  - intros base v m s n es m' s' Hinit Hsteps.
    apply (steps_invariant
             (fun m => forall name e, poi_list m !! name = Some e -> is_validated name e)
             step_validated _ _ _ _ _ _ Hsteps).
    unfold init in Hinit. destruct (urlparse base); [|discriminate].
    injection Hinit as <-. simpl. intros name e H. now rewrite lookup_empty in H.
Qed.

Lemma init_in_domain base v (m : Manager) :
  init urlparse Validator base v = Ok m ->
  exists parsed, urlparse base = Some parsed
                 /\ base_url m = base
                 /\ base_domain m = UrlLib.netloc parsed
                 /\ in_domain (add_to_queue m (base_url m) 1.0).
Proof.
  unfold init. destruct (urlparse base) as [parsed|] eqn:E; [|discriminate].
  intros [= <-]. exists parsed. simpl. repeat split.
  intros e [<-|[]]. simpl. eauto.
Qed.

(** C6: a reported link whose parsed host is not the seed's is not pushed,
    whatever its score and depth: processing it leaves the manager as it is;
    and in every state of a crawl, each entry of the frontier is for a URL
    with the seed's host. *)
Theorem C6_other_hosts_never_pushed :
  (forall (m : Manager) url ai parsed,
     urlparse url = Some parsed ->
     UrlLib.netloc parsed <> base_domain m ->
     process_link m (url, ai) = (Ok tt, m))
  /\ (forall base v (m : Manager) seed_parsed s n es m' s',
        init urlparse Validator base v = Ok m ->
        urlparse base = Some seed_parsed ->
        steps n (add_to_queue m (base_url m) 1.0) s = Some (es, m', s') ->
        forall e, In e (url_queue m') ->
                  exists parsed, urlparse (ScoredURL.url e) = Some parsed
                                 /\ UrlLib.netloc parsed = UrlLib.netloc seed_parsed).
Proof.
  split.
  - intros m url ai parsed Hp Hne.
    unfold process_new_url, _should_process_url.
    destruct (PrimFloat.ltb ai 0.5); [reflexivity|].
    destruct (bool_decide _); [reflexivity|]. rewrite Hp.
    now destruct (String.eqb_spec (UrlLib.netloc parsed) (base_domain m)).
  - intros base v m seed_parsed s n es m' s' Hinit Hseed Hsteps e He.
    destruct (init_in_domain _ _ _ Hinit) as (parsed & Hp & _ & Hd & Hstart).
    assert (parsed = seed_parsed) as -> by congruence.
    pose proof (steps_invariant in_domain step_frontier_in_domain _ _ _ _ _ _ Hsteps Hstart) as Hm'.
    assert (Hdom : base_domain m' = base_domain m).
    { apply (steps_invariant (fun x => base_domain x = base_domain m)
               (fun m0 s0 e0 m1 s1 H0 Hm0 =>
                  eq_trans (proj1 (proj2 (step_frame _ _ _ _ _ H0))) Hm0)
               _ _ _ _ _ _ Hsteps).
      reflexivity. }
    destruct (Hm' e He) as (p & Hp' & Hn). exists p. split; [exact Hp'|]. congruence.
Qed.

(** C8 (amended): popping a URL of the visited set only removes the entry
    from the frontier: the scraper is not invoked and the visited set, the
    link log, the registry and the snapshot are as before; consequently, in
    any sequence of iterations and in a whole crawl, once an iteration for a
    URL has completed without an exception (the URL is marked visited), every
    later iteration for that URL is such a skip, and at most one iteration
    per URL runs to completion. *)
Theorem C8_visited_url_is_skipped :
  (forall (m : Manager) s entry q,
     PriorityQueue.get (url_queue m) = Some (entry, q) ->
     ScoredURL.url entry ∈ visited_urls m ->
     step m s = Some (mkEvent (ScoredURL.url entry) Skipped, set_queue m q, s)
     /\ visited_urls (set_queue m q) = visited_urls m
     /\ all_links_with_scores (set_queue m q) = all_links_with_scores m
     /\ poi_list (set_queue m q) = poi_list m
     /\ _current_url_links_with_scores (set_queue m q)
        = _current_url_links_with_scores m)
  /\ (forall n (m : Manager) s es m' s',
        steps n m s = Some (es, m', s') ->
        (forall es1 e es2 e',
           es = es1 ++ e :: es2 -> completed e = true ->
           In e' es2 -> ev_url e' = ev_url e -> scraper_invoked e' = false)
        /\ List.NoDup (map ev_url (List.filter completed es)))
  /\ (forall fuel (m : Manager) s r es m' s',
        run_process fuel m s = Some (r, es, m', s') ->
        (forall es1 e es2 e',
           es = es1 ++ e :: es2 -> completed e = true ->
           In e' es2 -> ev_url e' = ev_url e -> scraper_invoked e' = false)
        /\ List.NoDup (map ev_url (List.filter completed es))).
Proof.
  assert (Hany : forall n (m : Manager) s es m' s',
             steps n m s = Some (es, m', s') ->
             (forall es1 e es2 e',
                es = es1 ++ e :: es2 -> completed e = true ->
                In e' es2 -> ev_url e' = ev_url e -> scraper_invoked e' = false)
             /\ List.NoDup (map ev_url (List.filter completed es))).
  { intros n m s es m' s' Hsteps. apply steps_visited_once in Hsteps. split.
    - intros es1 e es2 e' -> Hc He' Hurl. unfold scraper_invoked.
      now rewrite (visited_once_after _ _ _ _ Hsteps Hc e' He' Hurl).
    - now apply (visited_once_nodup _ _ Hsteps). }
  split; [|split; [exact Hany|]].
  - intros m s entry q Hget Hv. split; [|repeat split].
    unfold iteration. rewrite Hget, (get_not_empty _ _ _ Hget). simpl.
    now rewrite (bool_decide_eq_true_2 _ Hv).
  - intros fuel m s r es m' s' Hrun. unfold run in Hrun.
    apply loop_steps in Hrun. destruct Hrun as [Hsteps _]. eapply Hany, Hsteps.
Qed.

(** C9: from a seed for which the scraper returns without a callback, the
    loop ends after one processed URL: the only iteration is the seed's, it
    completes, the seed is the visited set, and [process] returns the empty
    registry. *)
Theorem C9_seed_without_links base v (m : Manager) s s' fuel :
  init urlparse Validator base v = Ok m ->
  scraper s base = Return s' ->
  2 <= fuel ->
  exists m',
    run_process fuel m s = Some (Ok tt, [mkEvent base (Visited [])], m', s')
    /\ visited_urls m' = {[base]}
    /\ poi_list m' = ∅
    /\ process_result fuel m s = Some (Ok ∅).
Proof.
  intros Hinit Hs Hfuel.
  unfold init in Hinit. destruct (urlparse base) as [parsed|]; [|discriminate].
  injection Hinit as <-.
  destruct fuel as [|[|fuel]]; [lia|lia|].
  unfold process, run. cbn -[union singleton empty bool_decide].
  rewrite bool_decide_eq_false_2 by apply not_elem_of_empty.
  rewrite Hs. cbn -[union singleton empty bool_decide].
  unfold new_links. cbn -[union singleton empty bool_decide].
  rewrite list_of_set_nil. cbn -[union singleton empty bool_decide].
  eexists. split; [reflexivity|]. cbn -[union singleton empty].
  split; [apply union_empty_r_L|]. split; reflexivity.
Qed.

(** C5: on a queue whose scores are numbers, [get] removes one entry, and no
    entry of the queue has a higher score than the removed one; hence the
    seed, queued with 1.0, comes out before any entry with a lower score; an
    empty queue makes [empty()] true, and the loop then ends normally with
    the state it has. *)
Theorem C5_pop_highest_priority :
  (forall q entry rest,
     (forall y, In y q -> is_nan (ScoredURL.score y) = false) ->
     PriorityQueue.get q = Some (entry, rest) ->
     Permutation q (entry :: rest)
     /\ forall y, In y q ->
                  PrimFloat.leb (ScoredURL.score y) (ScoredURL.score entry) = true)
  /\ (forall q seed,
        In seed q ->
        ScoredURL.score seed = 1.0%float ->
        (forall y, In y q -> y = seed \/ PrimFloat.ltb (ScoredURL.score y) 1.0 = true) ->
        exists rest, PriorityQueue.get q = Some (seed, rest))
  /\ (PriorityQueue.empty [] = true /\ PriorityQueue.get [] = None)
  /\ (forall (m : Manager) s fuel,
        url_queue m = [] -> loop (S fuel) m s = Some (Ok tt, [], m, s)).
Proof.
  split; [|split; [|split]].
  - intros q entry rest Hnan Hget. split; [now apply get_perm|].
    now apply (get_highest q entry rest).
  - intros q seed Hin Hscore Hothers.
    destruct (get_nonempty q) as (entry & rest & Hget).
    { intros ->. destruct Hin. }
    assert (Hnan : forall y, In y q -> is_nan (ScoredURL.score y) = false).
    { intros y Hy. destruct (Hothers y Hy) as [->|Hlt].
      - now rewrite Hscore.
      - now apply FloatOrder.ltb_not_nan in Hlt. }
    assert (Hentry : In entry q).
    { apply (Permutation_in entry (Permutation_sym (get_perm _ _ _ Hget))). now left. }
    destruct (Hothers entry Hentry) as [->|Hlt]; [eauto|].
    pose proof (get_highest q entry rest Hnan Hget seed Hin) as Hle.
    rewrite Hscore in Hle. apply FloatOrder.leb_not_ltb in Hle. congruence.
  - split; reflexivity.
  - intros m s fuel Hq. simpl. apply (step_empty m s) in Hq. now rewrite Hq.
Qed.

(** *** The set difference on the link log *)

Lemma link_eqb_trans a b c :
  link_eqb a b = true -> link_eqb b c = true -> link_eqb a c = true.
Proof.
  unfold link_eqb. intros [H1 H2]%andb_prop [H3 H4]%andb_prop.
  apply String.eqb_eq in H1, H3. rewrite H1, H3, String.eqb_refl. simpl.
  eapply FloatOrder.eqb_trans; eauto.
Qed.

Local Abbreviation set_add :=
  (fun (acc : list Link) (x : Link) => if link_mem x acc then acc else acc ++ [x]).

Lemma set_add_keeps l : forall acc q, In q acc -> In q (fold_left set_add l acc).
Proof.
  induction l as [|x l IH]; intros acc q Hq; simpl; [exact Hq|].
  apply IH. destruct (link_mem x acc); [exact Hq|]. apply in_app_iff. now left.
Qed.

Lemma set_add_incl l : forall acc q,
  In q (fold_left set_add l acc) -> In q acc \/ In q l.
Proof.
  induction l as [|x l IH]; intros acc q Hq; simpl in *; [now left|].
  destruct (IH _ _ Hq) as [H|H]; [|now right; right].
  destruct (link_mem x acc); [now left|].
  apply in_app_iff in H. destruct H as [H|[<-|[]]]; [now left | now right; left].
Qed.

Lemma set_add_complete l : forall acc p,
  In p l ->
  exists q, In q (fold_left set_add l acc) /\ (q = p \/ link_eqb p q = true).
Proof.
  induction l as [|x l IH]; intros acc p Hp; [destruct Hp|].
  destruct Hp as [->|Hp]; [|now apply IH]. simpl.
  destruct (link_mem p acc) eqn:E.
  - apply existsb_exists in E. destruct E as (q & Hq & Heq).
    exists q. split; [now apply set_add_keeps | now right].
  - exists p. split; [|now left]. apply set_add_keeps, in_app_iff. right. now left.
Qed.

Lemma py_set_incl l q : In q (py_set l) -> In q l.
Proof. intros H. now destruct (set_add_incl l [] q H). Qed.

(** A pair of the log that equals no pair of the snapshot has a
    representative in the difference of the two sets. *)
Lemma set_difference_complete log snapshot p :
  In p log -> link_mem p snapshot = false ->
  exists q, In q (set_difference (py_set log) (py_set snapshot))
            /\ (q = p \/ link_eqb p q = true).
Proof.
  intros Hp Hnot. destruct (set_add_complete log [] p Hp) as (q & Hq & Hpq).
  exists q. split; [|exact Hpq]. apply filter_In. split; [exact Hq|].
  apply negb_true_iff. destruct (link_mem q (py_set snapshot)) eqn:E; [|reflexivity].
  apply existsb_exists in E. destruct E as (c & Hc & Hqc). apply py_set_incl in Hc.
  assert (link_eqb p c = true) as Hpc.
  { destruct Hpq as [->|Hpq]; [exact Hqc | now apply (link_eqb_trans p q c)]. }
  assert (link_mem p snapshot = true) by (apply existsb_exists; eauto). congruence.
Qed.

(** *** Iterations in which the scraper does not return *)

Lemma step_log (m : Manager) s e m' s' :
  step m s = Some (e, m', s') ->
  exists reported, all_links_with_scores m' = all_links_with_scores m ++ reported.
Proof.
  intros H. destruct (step_inv _ _ _ _ _ H) as (entry & q & Hget & Hurl & Hcase).
  pose proof (run_scraper_frame (scraper s (ScoredURL.url entry)) (set_queue m q)) as F.
  simpl in F. destruct (ev_outcome e) as [| |new|new|].
  - destruct Hcase as (_ & -> & _). exists []. now rewrite app_nil_r.
  - destruct Hcase as (_ & Hrun). rewrite Hrun in F. simpl in F. tauto.
  - destruct Hcase as (_ & m1 & Hrun & _ & Hfor). rewrite Hrun in F. simpl in F.
    destruct (for_each_state new (set_current m1 new)) as (pr & rest & _ & Hst & _).
    rewrite Hfor in Hst. simpl in Hst. subst m'. simpl. tauto.
  - destruct Hcase as (_ & m1 & m2 & Hrun & _ & Hfor & ->). rewrite Hrun in F. simpl in F.
    apply for_each_ok in Hfor. subst m2. simpl. tauto.
  - destruct Hcase as (_ & Hrun). rewrite Hrun in F. simpl in F. tauto.
Qed.

Lemma step_quiet (m : Manager) s e m' s' :
  step m s = Some (e, m', s') -> scraper_returned e = false ->
  _current_url_links_with_scores m' = _current_url_links_with_scores m
  /\ visited_urls m' = visited_urls m.
Proof.
  intros H Hq. destruct (step_inv _ _ _ _ _ H) as (entry & q & Hget & Hurl & Hcase).
  unfold scraper_returned in Hq.
  destruct (ev_outcome e) as [| |new|new|]; try discriminate.
  - destruct Hcase as (_ & -> & _). auto.
  - destruct Hcase as (_ & Hrun).
    pose proof (run_scraper_frame (scraper s (ScoredURL.url entry)) (set_queue m q)) as F.
    rewrite Hrun in F. simpl in F. tauto.
  - destruct Hcase as (_ & Hrun).
    pose proof (run_scraper_frame (scraper s (ScoredURL.url entry)) (set_queue m q)) as F.
    rewrite Hrun in F. simpl in F. tauto.
Qed.

Lemma steps_quiet n : forall (m : Manager) s es m' s',
  steps n m s = Some (es, m', s') ->
  (forall e, In e es -> scraper_returned e = false) ->
  _current_url_links_with_scores m' = _current_url_links_with_scores m
  /\ visited_urls m' = visited_urls m
  /\ base_domain m' = base_domain m
  /\ exists reported, all_links_with_scores m' = all_links_with_scores m ++ reported.
Proof.
  induction n as [|n IH]; intros m s es m' s' H Hq.
  - simpl in H. injection H as <- <- <-. repeat split. exists []. now rewrite app_nil_r.
  - destruct (steps_S _ _ _ _ _ _ H) as (e & es' & m1 & s1 & H1 & H2 & ->).
    destruct (step_quiet _ _ _ _ _ H1) as [Q1 Q2]; [apply Hq; now left|].
    destruct (step_frame _ _ _ _ _ H1) as (_ & Q3 & _).
    destruct (step_log _ _ _ _ _ H1) as (r1 & Q4).
    destruct (IH _ _ _ _ _ H2) as (I1 & I2 & I3 & r2 & I4).
    { intros e' He'. apply Hq. now right. }
    repeat split; try congruence. exists (r1 ++ r2). rewrite I4, Q4. now rewrite app_assoc.
Qed.

(** C10 (amended): the pairs a scraper invocation passes to
    [register_link] before it raises an exception that the loop catches are
    in the link log, behind the pairs it held before, and stay there: the
    log only grows.  That iteration leaves the snapshot as it was.  In the
    next iteration in which the scraper returns, every such pair that equals
    no pair of the snapshot is in the newly reported set (itself or an equal
    pair reported earlier); and when that iteration completes without an
    exception, the pair has gone through the admission tests: the entry to
    push for it, if any, is in the frontier.  (The scores of the log and of
    the snapshot are numbers: for a NaN the equality of pairs depends on the
    identity of objects.) *)
Theorem C10_links_of_a_failed_page (m : Manager) s entry q m1 s1 n es m2 s2 e3 m3 s3 new :
  PriorityQueue.get (url_queue m) = Some (entry, q) ->
  step m s = Some (mkEvent (ScoredURL.url entry) ScraperRaised, m1, s1) ->
  steps n m1 s1 = Some (es, m2, s2) ->
  (forall e, In e es -> scraper_returned e = false) ->
  step m2 s2 = Some (e3, m3, s3) ->
  ev_outcome e3 = LinksRaised new \/ ev_outcome e3 = Visited new ->
  (forall l, In l (all_links_with_scores m3 ++ _current_url_links_with_scores m) ->
             is_nan (snd l) = false) ->
  let reported :=
    registered_links py_repr py_str_float Validator validate ScraperSt
      (scraper s (ScoredURL.url entry)) (set_queue m q) in
  _current_url_links_with_scores m1 = _current_url_links_with_scores m
  /\ all_links_with_scores m1 = all_links_with_scores m ++ reported
  /\ (exists later, all_links_with_scores m3 = all_links_with_scores m1 ++ later)
  /\ forall p,
       In p reported ->
       link_mem p (_current_url_links_with_scores m) = false ->
       exists q',
         In q' new
         /\ (q' = p \/ link_eqb p q' = true)
         /\ (ev_outcome e3 = Visited new ->
             forall x, In x (entries_for m2 q') -> In x (url_queue m3)).
Proof.
  intros Hget H1 H2 Hquiet H3 Hout _ reported.
  destruct (step_quiet _ _ _ _ _ H1 eq_refl) as [Q1 _].
  assert (Hlog1 : all_links_with_scores m1 = all_links_with_scores m ++ reported).
  { destruct (step_inv _ _ _ _ _ H1) as (entry' & q0 & Hget' & _ & _ & Hrun).
    rewrite Hget in Hget'. injection Hget' as <- <-.
    pose proof (run_scraper_log (scraper s (ScoredURL.url entry)) (set_queue m q)) as L.
    rewrite Hrun in L. exact L. }
  destruct (steps_quiet _ _ _ _ _ _ H2 Hquiet) as (Q2 & _ & _ & r2 & Hlog2).
  destruct (step_log _ _ _ _ _ H3) as (r3 & Hlog3).
  split; [exact Q1|]. split; [exact Hlog1|]. split.
  { exists (r2 ++ r3). rewrite Hlog3, Hlog2. now rewrite app_assoc. }
  intros p Hp Hnot.
  destruct (step_inv _ _ _ _ _ H3) as (entry3 & q3 & Hget3 & Hurl & Hcase).
  pose proof (run_scraper_frame (scraper s2 (ScoredURL.url entry3)) (set_queue m2 q3)) as F.
  simpl in F.
  assert (Hnew : forall ma,
            snd (run_scraper (scraper s2 (ScoredURL.url entry3)) (set_queue m2 q3)) = ma ->
            new = newly_reported ma ->
            exists q', In q' new /\ (q' = p \/ link_eqb p q' = true)).
  { intros ma Hma ->. rewrite Hma in F.
    destruct F as (_ & _ & _ & _ & F5 & r & F6). simpl in F5, F6.
    destruct (set_difference_complete (all_links_with_scores ma)
                (_current_url_links_with_scores ma) p) as (q' & Hq' & Hpq).
    - rewrite F6, Hlog2, Hlog1. rewrite !in_app_iff. auto.
    - now rewrite F5, Q2, Q1.
    - exists q'. split; [|exact Hpq]. unfold new_links.
      apply (Permutation_in q' (Permutation_sym (list_of_set_perm _))). exact Hq'. }
  destruct Hout as [Hout|Hout]; rewrite Hout in Hcase.
  - destruct Hcase as (_ & ma & Hrun & Hnewa & _).
    destruct (Hnew ma) as (q' & Hq' & Hpq); [now rewrite Hrun | exact Hnewa |].
    exists q'. split; [exact Hq'|]. split; [exact Hpq|].
    intros Hv. rewrite Hout in Hv. discriminate.
  - destruct Hcase as (_ & ma & mb & Hrun & Hnewa & Hfor & ->).
    destruct (Hnew ma) as (q' & Hq' & Hpq); [now rewrite Hrun | exact Hnewa |].
    exists q'. split; [exact Hq'|]. split; [exact Hpq|]. intros _ x Hx.
    apply for_each_ok in Hfor. subst mb. simpl.
    rewrite Hrun in F. simpl in F. destruct F as (_ & F2 & F3 & _).
    apply in_app_iff. right. apply in_flat_map. exists q'. split; [exact Hq'|].
    rewrite (entries_for_frame m2 (set_current ma new) q'); [exact Hx | exact F3 | exact F2].
Qed.

(** *** Further invariants of the crawl *)

Local Abbreviation comes_from := (from_seed_or_log urlparse Validator).
Local Abbreviation raises := (raises_for urlparse Validator).

Lemma steps_log n : forall (m : Manager) s es m' s',
  steps n m s = Some (es, m', s') ->
  exists reported, all_links_with_scores m' = all_links_with_scores m ++ reported.
Proof.
  induction n as [|n IH]; intros m s es m' s' H.
  - simpl in H. injection H as <- <- <-. exists []. now rewrite app_nil_r.
  - destruct (steps_S _ _ _ _ _ _ H) as (e & es' & m1 & s1 & H1 & H2 & _).
    destruct (step_log _ _ _ _ _ H1) as (r1 & Q1).
    destruct (IH _ _ _ _ _ H2) as (r2 & Q2).
    exists (r1 ++ r2). now rewrite Q2, Q1, app_assoc.
Qed.

(** X1: the link log only grows.  [register_link] appends its pair at the
    end, also when an equal pair is already in the log; whatever callbacks a
    scraper invocation makes, and after any number of loop iterations, the
    earlier log is a prefix of the later one, and the callbacks change
    neither the visited set nor the frontier nor the snapshot. *)
Theorem X1_link_log_only_grows :
  (forall (m : Manager) url score,
     all_links_with_scores (snd (register_link py_str_float Validator m url score))
     = all_links_with_scores m ++ [(url, score)])
  /\ (forall sc (m : Manager),
        let m' := snd (run_script py_repr py_str_float Validator validate ScraperSt sc m) in
        (exists reported,
           all_links_with_scores m' = all_links_with_scores m ++ reported)
        /\ visited_urls m' = visited_urls m
        /\ url_queue m' = url_queue m
        /\ _current_url_links_with_scores m' = _current_url_links_with_scores m)
  /\ (forall n (m : Manager) s es m' s',
        steps n m s = Some (es, m', s') ->
        exists reported,
          all_links_with_scores m' = all_links_with_scores m ++ reported).
Proof.
  split; [reflexivity|]. split.
  - intros sc m. pose proof (run_scraper_frame sc m) as F. simpl in F.
    destruct F as (_ & _ & F3 & F4 & F5 & F6). simpl. auto.
  - exact steps_log.
Qed.

(** X2: after any number of iterations, the visited set is the visited set
    at the start together with the URLs of the iterations that ran to
    completion; an iteration that was skipped or ended in an exception adds
    nothing. *)
Theorem X2_visited_are_completed n : forall (m : Manager) s es m' s',
  steps n m s = Some (es, m', s') ->
  forall u,
    u ∈ visited_urls m'
    <-> u ∈ visited_urls m \/ exists e, In e es /\ completed e = true /\ ev_url e = u.
Proof.
  induction n as [|n IH]; intros m s es m' s' H u.
  - simpl in H. injection H as <- <- <-. split; [now left|].
    intros [Hu|(e & [] & _)]. exact Hu.
  - destruct (steps_S _ _ _ _ _ _ H) as (e & es' & m1 & s1 & H1 & H2 & ->).
    rewrite (IH _ _ _ _ _ H2 u).
    destruct (step_frame _ _ _ _ _ H1) as (_ & _ & Hv). rewrite Hv.
    destruct (completed e) eqn:Hc.
    + rewrite elem_of_union, elem_of_singleton. split.
      * intros [[->|Hu]|(e' & He' & Hc' & Hu)].
        -- right. exists e. split; [now left | auto].
        -- now left.
        -- right. exists e'. split; [now right | auto].
      * intros [Hu|(e' & [<-|He'] & Hc' & Hu)].
        -- left. now right.
        -- left. left. now symmetry.
        -- right. exists e'. auto.
    + split.
      * intros [Hu|(e' & He' & Hc' & Hu)]; [now left|].
        right. exists e'. split; [now right | auto].
      * intros [Hu|(e' & [<-|He'] & Hc' & Hu)]; [now left | congruence |].
        right. exists e'. auto.
Qed.

Lemma newly_reported_in_log (m : Manager) q :
  In q (newly_reported m) -> In q (all_links_with_scores m).
Proof.
  unfold new_links. intros H.
  apply (Permutation_in q (list_of_set_perm _)) in H.
  apply filter_In in H. destruct H as [H _]. now apply py_set_incl.
Qed.

Lemma comes_from_frame (m m' : Manager) e :
  base_url m' = base_url m -> base_domain m' = base_domain m ->
  (forall l, In l (all_links_with_scores m) -> In l (all_links_with_scores m')) ->
  comes_from m e -> comes_from m' e.
Proof.
  intros Hb Hd Hl [->|(ai & parsed & H1 & H2 & H3 & H4 & H5)].
  - left. now rewrite Hb.
  - right. exists ai, parsed. rewrite Hd. auto.
Qed.

Lemma step_comes_from (m : Manager) s e m' s' :
  step m s = Some (e, m', s') ->
  (forall x, In x (url_queue m) -> comes_from m x) ->
  forall x, In x (url_queue m') -> comes_from m' x.
Proof.
  intros H Hm. destruct (step_inv _ _ _ _ _ H) as (entry & q & Hget & Hurl & Hcase).
  assert (Hq : forall x, In x q -> comes_from m x).
  { intros x Hx. apply Hm.
    apply (Permutation_in x (Permutation_sym (get_perm _ _ _ Hget))). now right. }
  pose proof (run_scraper_frame (scraper s (ScoredURL.url entry)) (set_queue m q)) as F.
  simpl in F.
  assert (Hpush : forall m1 done x,
            base_url m1 = base_url m -> base_domain m1 = base_domain m ->
            (forall l, In l (all_links_with_scores m) -> In l (all_links_with_scores m1)) ->
            url_queue m1 = q ->
            (forall l, In l done -> In l (all_links_with_scores m1)) ->
            forall new,
            In x (url_queue m1 ++ flat_map (entries_for (set_current m1 new)) done) ->
            comes_from (set_current m1 new) x).
  { intros m1 done x Hb Hd Hl Hq1 Hdone new Hx. apply in_app_iff in Hx.
    destruct Hx as [Hx|Hx].
    - apply (comes_from_frame m); simpl; auto. apply Hq. now rewrite <- Hq1.
    - apply in_flat_map in Hx. destruct Hx as (l & Hl' & Hx).
      apply entries_for_inv in Hx. destruct Hx as (Hai & _ & parsed & Hp & Hn & ->).
      right. exists (snd l), parsed. simpl in *.
      repeat split; auto. destruct l as [u a]. simpl. now apply Hdone. }
  destruct (ev_outcome e) as [| |new|new|].
  - destruct Hcase as (_ & -> & _). intros x Hx.
    apply (comes_from_frame m); auto.
  - destruct Hcase as (_ & Hrun). rewrite Hrun in F. simpl in F.
    destruct F as (F1 & F2 & _ & F4 & _ & r & F6). rewrite F4. intros x Hx.
    apply (comes_from_frame m); auto.
    intros l Hl. rewrite F6. apply in_app_iff. now left.
  - destruct Hcase as (_ & m1 & Hrun & -> & Hfor). rewrite Hrun in F. simpl in F.
    destruct F as (F1 & F2 & _ & F4 & _ & r & F6).
    destruct (for_each_state (newly_reported m1) (set_current m1 (newly_reported m1)))
      as (pr & rest & Hsplit & Hst & _).
    rewrite Hfor in Hst. simpl in Hst. subst m'. simpl. intros x Hx.
    apply (comes_from_frame (set_current m1 (newly_reported m1))); simpl; auto.
    apply (Hpush m1 pr x); auto.
    + intros l Hl. rewrite F6. apply in_app_iff. now left.
    + intros l Hl. apply newly_reported_in_log. rewrite Hsplit.
      apply in_app_iff. now left.
  - destruct Hcase as (_ & m1 & m2 & Hrun & -> & Hfor & ->). rewrite Hrun in F. simpl in F.
    destruct F as (F1 & F2 & _ & F4 & _ & r & F6).
    apply for_each_ok in Hfor. subst m2. simpl. intros x Hx.
    apply (comes_from_frame (set_current m1 (newly_reported m1))); simpl; auto.
    apply (Hpush m1 (newly_reported m1) x); auto.
    + intros l Hl. rewrite F6. apply in_app_iff. now left.
    + intros l Hl. now apply newly_reported_in_log.
  - destruct Hcase as (_ & Hrun). rewrite Hrun in F. simpl in F.
    destruct F as (F1 & F2 & _ & F4 & _ & r & F6). rewrite F4. intros x Hx.
    apply (comes_from_frame m); auto.
    intros l Hl. rewrite F6. apply in_app_iff. now left.
Qed.

(** X3: in every state of a crawl, each entry of the frontier is the seed's
    entry (the base URL with score 1.0) or was built from a pair of the link
    log: the pair's score is not below 0.5, its URL parses to the base
    domain, and the entry's score is the combined score of the pair's score
    and the depth score of its URL. *)
Theorem X3_frontier_comes_from_log base v (m : Manager) s n es m' s' :
  init urlparse Validator base v = Ok m ->
  steps n (add_to_queue m (base_url m) 1.0) s = Some (es, m', s') ->
  forall e, In e (url_queue m') ->
    e = ScoredURL.mk base 1.0
    \/ exists ai parsed,
         In (ScoredURL.url e, ai) (all_links_with_scores m')
         /\ PrimFloat.ltb ai 0.5 = false
         /\ urlparse (ScoredURL.url e) = Some parsed
         /\ UrlLib.netloc parsed = base_domain m
         /\ ScoredURL.score e
            = _calculate_final_score ai (depth_score_of (path_depth (UrlLib.path parsed))).
Proof.
  intros Hinit Hsteps e He.
  assert (Hbase : base_url m = base /\ url_queue m = []).
  { unfold init in Hinit. destruct (urlparse base); [|discriminate].
    now injection Hinit as <-. }
  destruct Hbase as [Hbase Hempty].
  set (P := fun x : Manager =>
              base_url x = base /\ base_domain x = base_domain m
              /\ forall y, In y (url_queue x) -> comes_from x y).
  assert (HP : forall m0 s0 e0 m1 s1, step m0 s0 = Some (e0, m1, s1) -> P m0 -> P m1).
  { intros m0 s0 e0 m1 s1 H0 (Hb & Hd & Hq).
    destruct (step_frame _ _ _ _ _ H0) as (F1 & F2 & _).
    unfold P. split; [congruence|]. split; [congruence|].
    now apply (step_comes_from _ _ _ _ _ H0). }
  assert (Hinv : P m').
  { apply (steps_invariant P HP _ _ _ _ _ _ Hsteps).
    unfold P. simpl. split; [exact Hbase|]. split; [reflexivity|].
    rewrite Hempty. intros y [<-|[]]. now left. }
  unfold P in Hinv.
  destruct Hinv as (Hb & Hd & Hq). destruct (Hq e He) as [->|H].
  - left. now rewrite Hb.
  - right. destruct H as (ai & p & H). exists ai, p. now rewrite <- Hd.
Qed.

Lemma steps_urls_in_domain n : forall (m : Manager) s es m' s',
  steps n m s = Some (es, m', s') -> in_domain m ->
  forall e, In e es ->
    exists parsed, urlparse (ev_url e) = Some parsed
                   /\ UrlLib.netloc parsed = base_domain m.
Proof.
  induction n as [|n IH]; intros m s es m' s' H Hm e He.
  - simpl in H. injection H as <- <- <-. destruct He.
  - destruct (steps_S _ _ _ _ _ _ H) as (e0 & es' & m1 & s1 & H1 & H2 & ->).
    destruct He as [<-|He].
    + destruct (step_inv _ _ _ _ _ H1) as (entry & q & Hget & Hurl & _).
      rewrite Hurl. apply Hm.
      apply (Permutation_in entry (Permutation_sym (get_perm _ _ _ Hget))). now left.
    + destruct (step_frame _ _ _ _ _ H1) as (_ & <- & _).
      apply (IH _ _ _ _ _ H2); [|exact He].
      now apply (step_frontier_in_domain _ _ _ _ _ H1).
Qed.

(** X4: a crawl starts with the seed and stays on its host: the first
    iteration invokes the scraper for the base URL, and the URL of every
    iteration, in particular every URL the scraper is invoked for, parses to
    the host of the base URL. *)
Theorem X4_scraper_stays_on_seed_host base v (m : Manager) seed_parsed s n es m' s' :
  init urlparse Validator base v = Ok m ->
  urlparse base = Some seed_parsed ->
  steps n (add_to_queue m (base_url m) 1.0) s = Some (es, m', s') ->
  (forall e, In e es ->
     exists parsed, urlparse (ev_url e) = Some parsed
                    /\ UrlLib.netloc parsed = UrlLib.netloc seed_parsed)
  /\ (forall e es', es = e :: es' -> ev_url e = base /\ scraper_invoked e = true).
Proof.
  intros Hinit Hseed Hsteps.
  destruct (init_in_domain _ _ _ Hinit) as (parsed & Hp & Hbase & Hd & Hstart).
  assert (parsed = seed_parsed) as -> by congruence. split.
  - intros e He.
    destruct (steps_urls_in_domain _ _ _ _ _ _ Hsteps Hstart e He) as (p & H1 & H2).
    exists p. split; [exact H1|]. simpl in H2. congruence.
  - intros e es' ->. destruct n as [|n]; [discriminate|].
    destruct (steps_S _ _ _ _ _ _ Hsteps) as (e0 & es0 & m1 & s1 & H1 & _ & Heq).
    injection Heq as <- <-.
    destruct (step_inv _ _ _ _ _ H1) as (entry & q & Hget & Hurl & Hcase).
    unfold init in Hinit. destruct (urlparse base); [|discriminate].
    injection Hinit as <-. simpl in Hget. injection Hget as <- <-.
    simpl in Hurl, Hcase. split; [exact Hurl|]. unfold scraper_invoked.
    destruct (ev_outcome e); [|reflexivity..].
    destruct Hcase as (Hv & _). now apply not_elem_of_empty in Hv.
Qed.

(** *** Exceptions while the new links are processed *)

Lemma process_link_ok_or_exn (m : Manager) link :
  fst (process_link m link) = Ok tt \/ fst (process_link m link) = Exn.
Proof.
  pose proof (process_link_not_base m link) as Hnb.
  destruct (fst (process_link m link)) as [[]| |]; auto. now destruct Hnb.
Qed.

Lemma raises_no_entry (m : Manager) link : raises m link -> entries_for m link = [].
Proof.
  unfold raises_for, pushed_for. intros (H1 & H2 & H3).
  now rewrite H1, (bool_decide_eq_false_2 _ H2), H3.
Qed.

Lemma for_each_split links : forall (m : Manager),
  exists processed rest,
    links = processed ++ rest
    /\ (forall l, In l processed -> ~ raises m l)
    /\ snd (for_each links m)
       = set_queue m (url_queue m ++ flat_map (entries_for m) processed)
    /\ match rest with
       | [] => fst (for_each links m) = Ok tt
       | link :: _ => raises m link /\ fst (for_each links m) = Exn
       end.
Proof.
  induction links as [|link links IH]; intros m; simpl.
  - exists [], []. simpl. rewrite app_nil_r, set_queue_same.
    repeat split. intros l [].
  - pose proof (process_link_state m link) as Hst.
    pose proof (process_link_raises m (fst link) (snd link)) as Hr.
    rewrite <- surjective_pairing in Hr.
    pose proof (process_link_not_base m link) as Hnb.
    destruct (process_link m link) as [[[]| |] m1]; simpl in Hst, Hr; subst m1;
      [| |now destruct Hnb].
    + destruct (IH (set_queue m (url_queue m ++ entries_for m link)))
        as (processed & rest & -> & Hno & Hq & Hrest).
      exists (link :: processed), rest. split; [reflexivity|]. split; [|split].
      * intros l [<-|Hl]; [|exact (Hno l Hl)].
        intros Hl. apply Hr in Hl. discriminate.
      * rewrite Hq. simpl. rewrite <- app_assoc.
        rewrite (flat_map_ext _ (entries_for m)); [reflexivity|].
        intros l. now apply entries_for_frame.
      * exact Hrest.
    + assert (Hraise : raises m link) by now apply Hr.
      exists [], (link :: links). simpl.
      rewrite (raises_no_entry m link Hraise), !app_nil_r, set_queue_same.
      split; [reflexivity|]. split; [intros l []|]. split; [reflexivity|].
      split; [exact Hraise | reflexivity].
Qed.

Lemma for_each_raises_iff links (m : Manager) :
  (fst (for_each links m) = Exn <-> exists link, In link links /\ raises m link)
  /\ exists processed rest,
       links = processed ++ rest
       /\ (forall l, In l processed -> ~ raises m l)
       /\ snd (for_each links m)
          = set_queue m (url_queue m ++ flat_map (entries_for m) processed)
       /\ match rest with
          | [] => fst (for_each links m) = Ok tt
          | link :: _ => raises m link /\ fst (for_each links m) = Exn
          end.
Proof.
  destruct (for_each_split links m) as (processed & rest & Hsplit & Hno & Hst & Hrest).
  split; [|exists processed, rest; auto]. split.
  - intros Hexn. destruct rest as [|link rest]; [congruence|].
    exists link. split; [|exact (proj1 Hrest)].
    rewrite Hsplit. apply in_app_iff. right. now left.
  - intros (link & Hin & Hraise). destruct rest as [|l rest]; [|exact (proj2 Hrest)].
    rewrite app_nil_r in Hsplit. subst processed. now destruct (Hno link Hin).
Qed.

(** X5: [_process_new_urls] raises exactly when its list holds a link whose
    score is not below 0.5, whose URL is not visited and on whose URL
    [urlparse] raises.  In any case the list splits at the first such link:
    the frontier has received, in order, the entries of the links before
    it, and no link from it on has been looked at; nothing but the frontier
    has changed. *)
Theorem X5_new_urls_stop_at_first_unparsable (m : Manager) links :
  let outcome := for_each_new_url urlparse Validator links m in
  (fst outcome = Exn <-> exists link, In link links /\ raises_for urlparse Validator m link)
  /\ exists processed rest,
       links = processed ++ rest
       /\ (forall l, In l processed -> ~ raises_for urlparse Validator m l)
       /\ snd outcome
          = set_url_queue Validator m
              (url_queue m ++ flat_map (pushed_for urlparse Validator m) processed)
       /\ match rest with
          | [] => fst outcome = Ok tt
          | link :: _ => raises_for urlparse Validator m link /\ fst outcome = Exn
          end.
Proof. apply for_each_raises_iff. Qed.

(** *** The admission of a link *)




(** X6: when the scraper has returned and [_process_new_urls] raises, the
    iteration leaves the popped URL unvisited although the scraper has run
    for it, the snapshot is already the new list, the entries pushed before
    the exception stay in the frontier behind the ones the pop left, and
    the list holds a link on which [urlparse] raises. *)
Theorem X6_link_exception_keeps_partial_work (m : Manager) s e m' s' new :
  step m s = Some (e, m', s') ->
  ev_outcome e = LinksRaised new ->
  visited_urls m' = visited_urls m
  /\ (ev_url e ∉ visited_urls m')
  /\ _current_url_links_with_scores m' = new
  /\ (exists link, In link new /\ raises m link)
  /\ exists entry q processed rest,
       PriorityQueue.get (url_queue m) = Some (entry, q)
       /\ new = processed ++ rest
       /\ url_queue m' = q ++ flat_map (entries_for m) processed.
Proof.
  intros H Hout. destruct (step_inv _ _ _ _ _ H) as (entry & q & Hget & Hurl & Hcase).
  rewrite Hout in Hcase. destruct Hcase as (Hv & m1 & Hrun & Hnew & Hfor).
  pose proof (run_scraper_frame (scraper s (ScoredURL.url entry)) (set_queue m q)) as F.
  rewrite Hrun in F. simpl in F. destruct F as (_ & F2 & F3 & F4 & _).
  destruct (for_each_raises_iff new (set_current m1 new))
    as (Hiff & processed & rest & Hsplit & _ & Hst & _).
  rewrite Hfor in Hiff, Hst. simpl in Hiff, Hst. subst m'. simpl.
  split; [exact F3|]. split; [now rewrite F3, Hurl|]. split; [reflexivity|]. split.
  - destruct (proj1 Hiff eq_refl) as (link & Hin & H1 & H2 & H3).
    exists link. split; [exact Hin|]. repeat split; auto. simpl in H2. now rewrite <- F3.
  - exists entry, q, processed, rest. split; [exact Hget|]. split; [exact Hsplit|].
    rewrite F4. f_equal. apply flat_map_ext. intros l.
    now apply entries_for_frame.
Qed.

(** *** The registry *)

Lemma messages_differ poi :
  validation_failed_message py_repr poi <> registered_message poi.
Proof. unfold validation_failed_message, registered_message. simpl. discriminate. Qed.

(** X7: the message [register_poi] returns tells what happened to the
    registry.  It is the confirmation exactly when the candidate is then
    stored under its name with its description, category and location;
    after a rejection message or an exception the registry is as before;
    and entries under other names are never touched. *)
Theorem X7_register_poi_message_tells_outcome (m : Manager) poi :
  (fst (reg_poi m poi) = Ok (registered_message poi)
   \/ fst (reg_poi m poi) = Ok (validation_failed_message py_repr poi)
   \/ fst (reg_poi m poi) = Exn
   \/ fst (reg_poi m poi) = BaseExn)
  /\ (fst (reg_poi m poi) = Ok (registered_message poi) ->
      poi_list (snd (reg_poi m poi)) !! PoiData.name poi = Some (entry_of poi))
  /\ (fst (reg_poi m poi) <> Ok (registered_message poi) ->
      poi_list (snd (reg_poi m poi)) = poi_list m)
  /\ (forall name, name <> PoiData.name poi ->
        poi_list (snd (reg_poi m poi)) !! name = poi_list m !! name).
Proof.
  unfold register_poi.
  destruct (validate _ _ _ _ _) as [[verdict| |] v]; simpl.
  - destruct (PoiValidationResult.is_valid verdict); simpl.
    + split; [now left|]. split; [intros _; apply lookup_insert_eq|].
      split; [congruence|]. intros name Hne. now apply lookup_insert_ne.
    + split; [right; now left|]. split; [|auto].
      intros H. exfalso. apply (messages_differ poi). congruence.
  - split; [right; right; now left|]. split; [discriminate | auto].
  - split; [right; right; now right|]. split; [discriminate | auto].
Qed.


(** *** Depth scores *)

Lemma depth_base_monotone a b :
  (a <= b)%nat -> PrimFloat.leb (depth_base a) (depth_base b) = true.
Proof.
  intros H.
  destruct a as [|[|[|[|a]]]], b as [|[|[|[|b]]]]; try reflexivity; lia.
Qed.

Lemma depth_base_range a :
  PrimFloat.leb 0 (depth_base a) = true /\ PrimFloat.leb (depth_base a) 0.9 = true.
Proof. destruct a as [|[|[|[|a]]]]; split; reflexivity. Qed.

(** X9: the depth score never decreases with the number of slashes in the
    path and stays between 0.0 and 0.9: of two URLs that parse, the one
    whose path has at least as many slashes gets at least the score of the
    other. *)
Theorem X9_depth_score_is_monotone url1 url2 parsed1 parsed2 :
  urlparse url1 = Some parsed1 ->
  urlparse url2 = Some parsed2 ->
  (Py.count "/" (UrlLib.path parsed1) <= Py.count "/" (UrlLib.path parsed2))%nat ->
  exists d1 d2,
    calculate_depth_score url1 = Ok d1
    /\ calculate_depth_score url2 = Ok d2
    /\ PrimFloat.leb d1 d2 = true
    /\ PrimFloat.leb 0 d1 = true
    /\ PrimFloat.leb d2 0.9 = true.
Proof.
  intros H1 H2 Hle. unfold _calculate_depth_score. rewrite H1, H2.
  rewrite !path_depth_count, !depth_score_of_nat.
  eexists _, _. split; [reflexivity|]. split; [reflexivity|].
  split; [now apply depth_base_monotone|].
  split; apply depth_base_range.
Qed.

(** *** [process] called once more *)

Lemma steps_base_url n (m : Manager) s es m' s' :
  steps n m s = Some (es, m', s') -> base_url m' = base_url m.
Proof.
  intros H.
  set (P := fun x : Manager => base_url x = base_url m).
  assert (HP : forall m0 s0 e m1 s1, step m0 s0 = Some (e, m1, s1) -> P m0 -> P m1).
  { unfold P. intros m0 s0 e m1 s1 Hs <-. exact (proj1 (step_frame _ _ _ _ _ Hs)). }
  exact (steps_invariant P HP _ _ _ _ _ _ H eq_refl).
Qed.

(** X17: [process] on a manager whose crawl has ended.  When the first call
    has returned and the seed is among the visited URLs, a second call
    queues the seed, pops it, skips it and returns: the scraper is not
    invoked and the manager is left as it was, so the call returns the same
    registry. *)
Theorem X17_second_process_only_skips_the_seed fuel (m : Manager) s es m' s' fuel2 :
  run urlparse py_repr py_str_float list_of_set Validator validate ScraperSt scraper
      fuel m s = Some (Ok tt, es, m', s') ->
  base_url m ∈ visited_urls m' ->
  2 <= fuel2 ->
  run urlparse py_repr py_str_float list_of_set Validator validate ScraperSt scraper
      fuel2 m' s' = Some (Ok tt, [mkEvent (base_url m) Skipped], m', s')
  /\ process urlparse py_repr py_str_float list_of_set Validator validate ScraperSt scraper
       fuel2 m' s' = Some (Ok (poi_list m')).
Proof.
  intros Hrun Hvis Hfuel. unfold run in Hrun.
  apply loop_steps in Hrun. destruct Hrun as [Hsteps [Hq _]].
  apply steps_base_url in Hsteps. simpl in Hsteps.
  assert (R : run_process fuel2 m' s'
              = Some (Ok tt, [mkEvent (base_url m) Skipped], m', s')).
  { destruct fuel2 as [|[|fuel2]]; [lia|lia|].
    destruct m' as [b v d vis q reg log cur]. simpl in *. subst q b.
    unfold run, _add_to_queue, PriorityQueue.put. cbn -[bool_decide].
    rewrite (bool_decide_eq_true_2 _ Hvis). reflexivity. }
  split; [exact R|]. unfold process. now rewrite R.
Qed.

End Facts.


(* ===================================================================== *)
(** * The validator agent *)
(* ===================================================================== *)

Lemma lower_char_y a : Py.lower_char a = "y"%char -> a = "y"%char \/ a = "Y"%char.
Proof.
  destruct a as [[] [] [] [] [] [] [] []]; vm_compute; intros H;
    try discriminate; auto.
Qed.

Lemma lower_char_e a : Py.lower_char a = "e"%char -> a = "e"%char \/ a = "E"%char.
Proof.
  destruct a as [[] [] [] [] [] [] [] []]; vm_compute; intros H;
    try discriminate; auto.
Qed.

Lemma lower_char_s a : Py.lower_char a = "s"%char -> a = "s"%char \/ a = "S"%char.
Proof.
  destruct a as [[] [] [] [] [] [] [] []]; vm_compute; intros H;
    try discriminate; auto.
Qed.

Lemma lower_is_yes reply :
  String.eqb (Py.lower reply) "yes" = true <-> In reply ValidatePoiAgent.yes_replies.
Proof.
  split.
  - intros H. apply String.eqb_eq in H.
    destruct reply as [|a [|b [|c [|d rest]]]]; try discriminate.
    simpl in H. injection H as Ha Hb Hc.
    apply lower_char_y in Ha. apply lower_char_e in Hb. apply lower_char_s in Hc.
    destruct Ha as [-> | ->], Hb as [-> | ->], Hc as [-> | ->]; simpl; tauto.
  - intros H. repeat (destruct H as [<-|H]; [reflexivity|]). destruct H.
Qed.

(** Reading the contents raises [KeyError] only, an instance of
    [Exception]. *)
Lemma contents_not_base history : Chat.contents history <> BaseExn.
Proof.
  induction history as [|msg history IH]; simpl; [discriminate|].
  destruct msg, (Chat.contents history); congruence.
Qed.

Lemma last_message_not_base history : Chat.last_message history <> BaseExn.
Proof.
  unfold Chat.last_message. pose proof (contents_not_base history) as H.
  destruct (Chat.contents history) as [messages| |]; [|discriminate|congruence].
  destruct (last messages); discriminate.
Qed.

Lemma contents_missing history :
  Chat.contents history = Exn <-> In Chat.Missing history.
Proof.
  induction history as [|msg history IH]; simpl.
  - split; [discriminate | intros []].
  - pose proof (contents_not_base history) as Hnb.
    destruct msg; simpl.
    + split; auto.
    + destruct (Chat.contents history); split; try discriminate; try congruence.
      * intros [H|H]; [discriminate|]. now apply IH in H.
      * intros _. right. now apply IH.
    + destruct (Chat.contents history); split; try discriminate; try congruence.
      * intros [H|H]; [discriminate|]. now apply IH in H.
      * intros _. right. now apply IH.
Qed.

(** The last element of the list of contents is the content of the last
    message. *)
Lemma contents_last history : forall messages,
  Chat.contents history = Ok messages ->
  match last history with
  | None => last messages = None
  | Some Chat.Missing => False
  | Some Chat.IsNone => last messages = Some None
  | Some (Chat.Text s) => last messages = Some (Some s)
  end.
Proof.
  induction history as [|msg history IH]; intros messages; simpl.
  - now intros [= <-].
  - destruct msg; [discriminate| |];
      destruct (Chat.contents history) as [ms| |] eqn:E; try discriminate;
      intros [= <-]; specialize (IH ms eq_refl);
      destruct history as [|msg' history']; simpl in *;
      try (injection E as <-; reflexivity);
      (destruct ms as [|x ms]; [destruct msg'; try discriminate E;
                                 destruct (Chat.contents history'); discriminate E|]);
      exact IH.
Qed.

Section ValidatorFacts.

Variable py_repr : string -> string.
Variable ChatSt : Type.
Variable initiate_chat : ChatSt -> string -> result (list Chat.Content) * ChatSt.

Local Abbreviation agent_validate := (ValidatePoiAgent.validate ChatSt initiate_chat).

(** X10: when [validate] returns a verdict, [is_valid] is true exactly when
    the last message of the chat is "yes" in some mixture of upper and
    lower case, nothing before or after it; the verdict carries the name
    and the description it was asked about and the last message as raw
    response; the chat is asked the question built from name and
    description only, and category and location do not influence the
    result. *)
Theorem X10_validate_accepts_only_a_bare_yes st name description category location
        verdict st' :
  agent_validate st name description category location = (Ok verdict, st') ->
  (PoiValidationResult.is_valid verdict = true
   <-> In (PoiValidationResult.raw_response verdict) ValidatePoiAgent.yes_replies)
  /\ PoiValidationResult.name verdict = name
  /\ PoiValidationResult.description verdict = description
  /\ (exists history,
        initiate_chat st (ValidatePoiAgent.initial_message name description)
        = (Ok history, st')
        /\ Chat.last_message history
           = Ok (Some (PoiValidationResult.raw_response verdict)))
  /\ (forall category' location',
        agent_validate st name description category' location'
        = agent_validate st name description category location).
Proof.
  unfold ValidatePoiAgent.validate.
  destruct (initiate_chat st _) as [[history| |] st1] eqn:Hchat; try discriminate.
  destruct (Chat.last_message history) as [[reply|]| |] eqn:Hlast; try discriminate.
  intros [= <- <-]. simpl. split; [apply lower_is_yes|].
  split; [reflexivity|]. split; [reflexivity|]. split; [eauto | reflexivity].
Qed.

(** X11: [validate] raises exactly when the chat raises, when its history is
    empty, when some message of the history has no "content" key, or when
    the content of the last message is [None]; in every other case it
    returns a verdict.  The exception is one that [except Exception] lets
    through exactly when it is such an exception of the chat. *)
Theorem X11_validate_raises_without_a_reply st name description category location :
  (fst (agent_validate st name description category location) = Exn
   <-> (fst (initiate_chat st (ValidatePoiAgent.initial_message name description)) = Exn
        \/ exists history,
             fst (initiate_chat st (ValidatePoiAgent.initial_message name description))
             = Ok history
             /\ (history = [] \/ In Chat.Missing history
                 \/ last history = Some Chat.IsNone)))
  /\ (fst (agent_validate st name description category location) = BaseExn
      <-> fst (initiate_chat st (ValidatePoiAgent.initial_message name description))
          = BaseExn).
Proof.
  unfold ValidatePoiAgent.validate.
  destruct (initiate_chat st _) as [[history| |] st1]; simpl.
  2: { split; split; try discriminate; [now left | reflexivity]. }
  2: { split; split; try discriminate; try reflexivity.
       intros [H|(h & H & _)]; discriminate. }
  pose proof (last_message_not_base history) as Hnb.
  split.
  2: { destruct (Chat.last_message history) as [[reply|]| |]; simpl;
         split; try discriminate; congruence. }
  clear Hnb. unfold Chat.last_message.
  pose proof (contents_not_base history) as Hnb.
  destruct (Chat.contents history) as [messages| |] eqn:Hc; [| |congruence].
  - pose proof (contents_last history messages Hc) as Hl.
    assert (Hmissing : ~ In Chat.Missing history).
    { intros H. apply contents_missing in H. congruence. }
    destruct (last history) as [[| |s]|] eqn:Hlast.
    + destruct Hl.
    + rewrite Hl. simpl. split; [|reflexivity]. intros _. right. exists history. auto.
    + rewrite Hl. simpl. split; [discriminate|].
      intros [H|(h & [= <-] & [->|[H|H]])];
        simpl in *; try congruence; contradiction.
    + rewrite Hl. simpl. split; [|reflexivity]. intros _. right. exists history.
      split; [reflexivity|]. left. now apply last_None.
  - simpl. split; [|reflexivity]. intros _. right. exists history.
    split; [reflexivity|]. right. left. now apply contents_missing.
Qed.

(** X12: with [ValidatePoiAgent] as the validator of the manager,
    [register_poi] holds one chat, about the name and the description of the
    candidate, and answers with the confirmation message exactly when the
    last message of that chat is a bare "yes" in any letter case; the
    candidate is then in the registry.  In every other case, an exception
    of the chat included, the registry is as before. *)
Theorem X12_register_poi_asks_the_agent (m : PoiManager ChatSt) poi :
  let result := register_poi py_repr ChatSt agent_validate m poi in
  let chat := initiate_chat (poi_validator m)
                (ValidatePoiAgent.initial_message (PoiData.name poi)
                                                  (PoiData.description poi)) in
  poi_validator (snd result) = snd chat
  /\ (fst result = Ok (registered_message poi)
      <-> exists history reply,
            fst chat = Ok history
            /\ Chat.last_message history = Ok (Some reply)
            /\ In reply ValidatePoiAgent.yes_replies)
  /\ (fst result = Ok (registered_message poi) ->
      poi_list (snd result) !! PoiData.name poi = Some (entry_of poi))
  /\ (fst result <> Ok (registered_message poi) ->
      poi_list (snd result) = poi_list m).
Proof.
  assert (Hdiff : Ok (validation_failed_message py_repr poi)
                  <> Ok (registered_message poi)).
  { intros H. injection H as H.
    unfold validation_failed_message, registered_message in H.
    simpl in H. discriminate. }
  unfold register_poi, ValidatePoiAgent.validate. simpl.
  destruct (initiate_chat _ _) as [[history| |] st1] eqn:Hchat; simpl.
  - destruct (Chat.last_message history) as [[reply|]| |] eqn:Hlast; simpl.
    + destruct (String.eqb (Py.lower reply) "yes") eqn:Hyes; simpl.
      * split; [reflexivity|]. split; [|split].
        -- split; [|reflexivity]. intros _. exists history, reply.
           split; [reflexivity|]. split; [exact Hlast|]. now apply lower_is_yes.
        -- intros _. apply lookup_insert_eq.
        -- congruence.
      * split; [reflexivity|]. split; [|split; [|reflexivity]].
        -- split; [intros H; now apply Hdiff in H|].
           intros (h & r & [= <-] & Hr' & Hr). rewrite Hlast in Hr'.
           injection Hr' as <-. apply lower_is_yes in Hr. congruence.
        -- intros H. now apply Hdiff in H.
    + split; [reflexivity|]. split; [|split; [discriminate | reflexivity]].
      split; [discriminate|]. intros (h & r & [= <-] & Hr' & _). congruence.
    + split; [reflexivity|]. split; [|split; [discriminate | reflexivity]].
      split; [discriminate|]. intros (h & r & [= <-] & Hr' & _). congruence.
    + split; [reflexivity|]. split; [|split; [discriminate | reflexivity]].
      split; [discriminate|]. intros (h & r & [= <-] & Hr' & _). congruence.
  - split; [reflexivity|]. split; [|split; [discriminate | reflexivity]].
    split; [discriminate|]. intros (h & r & [=] & _).
  - split; [reflexivity|]. split; [|split; [discriminate | reflexivity]].
    split; [discriminate|]. intros (h & r & [=] & _).
Qed.

End ValidatorFacts.

(* ===================================================================== *)
(** * The web surfer tool *)
(* ===================================================================== *)

Lemma str_append_assoc (a b c : string) : (a +:+ b) +:+ c = a +:+ (b +:+ c).
Proof.
  induction a as [|x a IH]; [reflexivity|].
  change (String x ((a +:+ b) +:+ c) = String x (a +:+ b +:+ c)). now rewrite IH.
Qed.

Lemma contents_snoc history s :
  Chat.contents (history ++ [Chat.Text s])
  = match Chat.contents history with
    | Ok messages => Ok (messages ++ [Some s])
    | Exn => Exn
    | BaseExn => BaseExn
    end.
Proof.
  induction history as [|msg history IH]; simpl; [reflexivity|].
  rewrite IH. destruct msg, (Chat.contents history); reflexivity.
Qed.

Lemma last_message_snoc history messages s :
  Chat.contents history = Ok messages ->
  Chat.last_message (history ++ [Chat.Text s]) = Ok (Some s).
Proof.
  intros H. unfold Chat.last_message. rewrite contents_snoc, H, last_snoc. reflexivity.
Qed.

Lemma last_message_text history s :
  Chat.last_message history = Ok (Some s) -> last history = Some (Chat.Text s).
Proof.
  unfold Chat.last_message.
  destruct (Chat.contents history) as [messages| |] eqn:E; try discriminate.
  pose proof (contents_last history messages E) as H.
  destruct (last messages) as [m|] eqn:L; [|discriminate]. intros [= ->].
  destruct (last history) as [[| |t]|]; try contradiction; congruence.
Qed.

Lemma fold_left_append {A} (f : A -> string) (g : A -> string -> string) (l : list A) :
  (forall x rest, g x rest = f x +:+ rest) ->
  forall r, fold_left (fun r x => r +:+ f x) l r = r +:+ fold_right g EmptyString l.
Proof.
  intros Hg. induction l as [|x l IH]; intros r; cbn [fold_left fold_right].
  - induction r as [|c r IHr]; [reflexivity|].
    change (String c r = String c (r +:+ EmptyString)). now rewrite <- IHr.
  - rewrite IH, Hg. apply str_append_assoc.
Qed.

Section SurferFacts.

Variable Url : Type.
Variable str_url : Url -> string.
Variable model_validate_json : string -> WebSurfer.Answer Url + string.
Variable none_error : string.
Variable example_json : string.

Local Abbreviation error_text := (WebSurfer.error_message example_json).
Local Abbreviation get_error := (WebSurfer._get_error_message Url model_validate_json example_json).
Local Abbreviation get_answer := (WebSurfer._get_answer Url model_validate_json).

Lemma error_message_has_terminate err :
  WebSurfer.contains_str "TERMINATE" (error_text err) = true.
Proof. reflexivity. Qed.

Lemma get_error_message_text err history message :
  get_error err history = Ok (Some message) -> message = error_text err.
Proof.
  unfold WebSurfer._get_error_message.
  destruct (Chat.last_message history) as [[s|]| |]; try discriminate.
  destruct (WebSurfer.contains_str _ s); [congruence|].
  destruct (model_validate_json s); [discriminate | congruence].
Qed.

Lemma get_error_message_not_base err history : get_error err history <> BaseExn.
Proof.
  unfold WebSurfer._get_error_message.
  pose proof (last_message_not_base history) as Hnb.
  destruct (Chat.last_message history) as [[s|]| |]; try discriminate; [|congruence].
  destruct (WebSurfer.contains_str _ s); [discriminate|].
  destruct (model_validate_json s); discriminate.
Qed.

Lemma get_error_message_none err history :
  get_error err history = Ok None ->
  exists content answer,
    Chat.last_message history = Ok (Some content)
    /\ WebSurfer.contains_str "TERMINATE" content = false
    /\ model_validate_json content = inl answer.
Proof.
  unfold WebSurfer._get_error_message.
  destruct (Chat.last_message history) as [[s|]| |]; try discriminate.
  destruct (WebSurfer.contains_str _ s) eqn:T; [discriminate|].
  destruct (model_validate_json s) as [answer|] eqn:P; [|discriminate].
  intros _. exists s, answer. auto.
Qed.

Lemma get_error_message_exn err history :
  get_error err history = Exn ->
  forall content, Chat.last_message history <> Ok (Some content).
Proof.
  unfold WebSurfer._get_error_message.
  destruct (Chat.last_message history) as [[s|]| |]; try discriminate.
  destruct (WebSurfer.contains_str _ s); [discriminate|].
  destruct (model_validate_json s); discriminate.
Qed.

(** X13: a chat that [_get_error_message] lets pass ([None]) ends in a
    message that holds an answer and not the word TERMINATE; [_get_answer]
    then returns that answer and does not raise, and [is_termination_msg]
    accepts the message without touching the stored error text. *)
Theorem X13_accepted_chat_ends_in_an_answer err history :
  WebSurfer._get_error_message Url model_validate_json example_json err history = Ok None ->
  exists content answer,
    last history = Some (Chat.Text content)
    /\ WebSurfer.contains_str "TERMINATE" content = false
    /\ model_validate_json content = inl answer
    /\ WebSurfer._get_answer Url model_validate_json history = Ok answer
    /\ forall stored,
         WebSurfer.is_termination_msg Url model_validate_json none_error stored
           (Chat.Text content) = (true, stored).
Proof.
  intros H. destruct (get_error_message_none _ _ H) as (content & answer & L & T & P).
  exists content, answer. split; [now apply last_message_text|].
  split; [exact T|]. split; [exact P|]. split.
  - unfold WebSurfer._get_answer. now rewrite L, P.
  - intros stored. simpl. now rewrite T, P.
Qed.

(** X14: the retry prompt [error_message] holds the word TERMINATE itself,
    whatever the example answer and the stored error text are.  So
    [is_termination_msg] takes the prompt for a termination message, and a
    chat whose last message is the prompt is rejected by
    [_get_error_message], which answers with the prompt again. *)
Theorem X14_retry_prompt_is_a_termination_message err history messages :
  Chat.contents history = Ok messages ->
  let prompt := WebSurfer.error_message example_json err in
  (forall stored,
     WebSurfer.is_termination_msg Url model_validate_json none_error stored
       (Chat.Text prompt) = (true, stored))
  /\ (forall stored,
        WebSurfer._get_error_message Url model_validate_json example_json stored
          (history ++ [Chat.Text prompt])
        = Ok (Some (WebSurfer.error_message example_json stored))).
Proof.
  intros H prompt. split; intros stored.
  - reflexivity.
  - unfold WebSurfer._get_error_message.
    rewrite (last_message_snoc _ _ _ H). reflexivity.
Qed.

Section Loop.

Variable World : Type.
Variable initiate_chat : World -> bool -> string -> result (list Chat.Content) * World.
Variable last_is_termination_msg_error : World -> string.

Local Abbreviation chat_loop :=
  (WebSurfer._chat_with_websurfer Url model_validate_json example_json World
     initiate_chat last_is_termination_msg_error).

(** X15: the chats of [_chat_with_websurfer].  When it ends after the chats
    [calls], the first chat has the caller's message and [clear_history],
    every later one is a retry: it keeps the history and its message is the
    retry prompt; every chat but the last ended in a message that was
    rejected.  A returned answer is the one the last chat's last message
    holds, and that message passes [_get_error_message]; an exception comes
    from the last chat itself or from a history without a last string
    content, never from a message that fails to parse; and one that
    [except Exception] lets through is an exception of the last chat. *)
Theorem X15_chat_loop_retries_until_an_answer fuel : forall w msg clear r w' calls,
  WebSurfer._chat_with_websurfer Url model_validate_json example_json World
    initiate_chat last_is_termination_msg_error fuel w msg clear = Some (r, w', calls) ->
  exists earlier final rest,
    calls = earlier ++ [final]
    /\ length calls <= fuel
    /\ calls = WebSurfer.mkCall clear msg (WebSurfer.call_history (hd final calls)) :: rest
    /\ Forall (fun c => WebSurfer.call_clear_history c = false
                        /\ exists e, WebSurfer.call_message c
                                     = WebSurfer.error_message example_json e) rest
    /\ Forall (fun c => exists h e,
                 WebSurfer.call_history c = Ok h
                 /\ WebSurfer._get_error_message Url model_validate_json example_json e h
                    = Ok (Some (WebSurfer.error_message example_json e))) earlier
    /\ match r with
       | Ok answer =>
           exists h, WebSurfer.call_history final = Ok h
                     /\ WebSurfer._get_answer Url model_validate_json h = Ok answer
                     /\ forall e, WebSurfer._get_error_message Url model_validate_json
                                    example_json e h = Ok None
       | Exn =>
           WebSurfer.call_history final = Exn
           \/ exists h, WebSurfer.call_history final = Ok h
                        /\ forall content, Chat.last_message h <> Ok (Some content)
       | BaseExn => WebSurfer.call_history final = BaseExn
       end.
Proof.
  induction fuel as [|fuel IH]; intros w msg clear r w' calls; simpl; [discriminate|].
  destruct (initiate_chat w clear msg) as [chat_result w1].
  destruct chat_result as [h| |].
  - pose proof (get_error_message_not_base (last_is_termination_msg_error w1) h) as Hnb.
    destruct (get_error (last_is_termination_msg_error w1) h) as [[msg'|]| |] eqn:G;
      [| | |now destruct Hnb].
    + destruct (chat_loop fuel w1 msg' false) as [[[r0 w0] calls0]|] eqn:R; [|discriminate].
      intros [= <- <- <-].
      destruct (IH _ _ _ _ _ _ R) as (earlier & final & rest & E1 & E2 & E3 & E4 & E5 & E6).
      exists (WebSurfer.mkCall clear msg (Ok h) :: earlier), final, calls0.
      split; [simpl; now rewrite E1|].
      split; [simpl; lia|].
      split; [reflexivity|].
      split.
      { rewrite E3. constructor; [|exact E4]. simpl. split; [reflexivity|].
        exists (last_is_termination_msg_error w1).
        now apply get_error_message_text with (history := h). }
      split.
      { constructor; [|exact E5]. simpl.
        exists h, (last_is_termination_msg_error w1). split; [reflexivity|].
        rewrite G. f_equal. f_equal. now apply get_error_message_text with (history := h). }
      exact E6.
    + intros [= <- <- <-].
      exists [], (WebSurfer.mkCall clear msg (Ok h)), [].
      split; [reflexivity|]. split; [simpl; lia|]. split; [reflexivity|].
      split; [constructor|]. split; [constructor|].
      destruct (get_error_message_none _ _ G) as (content & answer & L & T & P).
      assert (A : get_answer h = Ok answer)
        by (unfold WebSurfer._get_answer; now rewrite L, P).
      rewrite A. exists h. split; [reflexivity|]. split; [exact A|].
      intros e. unfold WebSurfer._get_error_message. now rewrite L, T, P.
    + intros [= <- <- <-].
      exists [], (WebSurfer.mkCall clear msg (Ok h)), [].
      split; [reflexivity|]. split; [simpl; lia|]. split; [reflexivity|].
      split; [constructor|]. split; [constructor|].
      right. exists h. split; [reflexivity|]. now apply get_error_message_exn with (err := last_is_termination_msg_error w1).
  - intros [= <- <- <-].
    exists [], (WebSurfer.mkCall clear msg Exn), [].
    split; [reflexivity|]. split; [simpl; lia|]. split; [reflexivity|].
    split; [constructor|]. split; [constructor|]. now left.
  - intros [= <- <- <-].
    exists [], (WebSurfer.mkCall clear msg BaseExn), [].
    split; [reflexivity|]. split; [simpl; lia|]. split; [reflexivity|].
    split; [constructor|]. split; [constructor|]. reflexivity.
Qed.

End Loop.

(** X16: the text of [create_final_reply]: the headline tells success from
    failure, the task and the details follow, and the links come one per
    line in the order of the answer.  The reply for an exception,
    [_get_error_from_exception], is a failure reply with the exception's
    text and no link. *)
Theorem X16_final_reply_text task message :
  let nl := ValidatePoiAgent.nl in
  WebSurfer.create_final_reply Url str_url task message
  = (if WebSurfer.is_successful Url message
     then "We have successfully completed the task:"
     else "We have failed to complete the task:")
    +:+ nl +:+ nl +:+ task +:+ nl +:+ nl
    +:+ "poi_details: " +:+ WebSurfer.poi_details Url message +:+ nl +:+ nl
    +:+ "Visited links:" +:+ nl
    +:+ fold_right (fun link rest => "  - " +:+ str_url link +:+ nl +:+ rest) EmptyString
          (WebSurfer.visited_links Url message)
  /\ String.prefix "We have successfully" (WebSurfer.create_final_reply Url str_url task message)
     = WebSurfer.is_successful Url message
  /\ forall e,
       WebSurfer._get_error_from_exception Url str_url task e
       = "We have failed to complete the task:" +:+ nl +:+ nl +:+ task +:+ nl +:+ nl
         +:+ "poi_details: unexpected error occurred: " +:+ e +:+ nl +:+ nl
         +:+ "Visited links:" +:+ nl.
Proof.
  intros nl.
  assert (E : WebSurfer.create_final_reply Url str_url task message
    = (if WebSurfer.is_successful Url message
       then "We have successfully completed the task:"
       else "We have failed to complete the task:")
      +:+ nl +:+ nl +:+ task +:+ nl +:+ nl
      +:+ "poi_details: " +:+ WebSurfer.poi_details Url message +:+ nl +:+ nl
      +:+ "Visited links:" +:+ nl
      +:+ fold_right (fun link rest => "  - " +:+ str_url link +:+ nl +:+ rest) EmptyString
            (WebSurfer.visited_links Url message)).
  { unfold WebSurfer.create_final_reply.
    rewrite (fold_left_append (fun link => "  - " +:+ str_url link +:+ ValidatePoiAgent.nl)
               (fun link rest => "  - " +:+ str_url link +:+ nl +:+ rest))
      by (intros x rest; now rewrite !str_append_assoc).
    fold nl. destruct (WebSurfer.is_successful Url message);
      rewrite !str_append_assoc; reflexivity. }
  split; [exact E|]. split.
  - rewrite E. destruct (WebSurfer.is_successful Url message); reflexivity.
  - intros e. unfold WebSurfer._get_error_from_exception, WebSurfer.create_final_reply.
    simpl. fold nl. rewrite !str_append_assoc. reflexivity.
Qed.

End SurferFacts.

(* ===================================================================== *)
(** * The claims on concrete crawls *)
(* ===================================================================== *)

Import Scenario.

Lemma insertion_order_perm s : Permutation (insertion_order s) s.
Proof. reflexivity. Qed.

Lemma reverse_order_perm s : Permutation (reverse_order s) s.
Proof. symmetry. apply Permutation_rev. Qed.

(** C1 (evaluation at a failing input): the seed reports links to pages a
    and b, which report nothing.  The third iteration (page b) finds a link
    log equal to the one the second iteration left, so no pair is new; yet
    the list it considers for admission holds both pairs of the first
    iteration again, and page b, whose only entry the iteration has popped,
    is pushed a second time.  The code subtracts
    the list considered in the previous iteration, not the log as it stood
    at the end of the previous iteration. *)
Theorem C1_old_links_are_considered_again :
  let before := state_after insertion_order scraper_three_pages 2 seed in
  let after := state_after insertion_order scraper_three_pages 3 seed in
  events_of (run_of insertion_order scraper_three_pages 10 seed)
  = [ mkEvent seed (Visited [(page_a, 0.9%float); (page_b, 0.8%float)]);
      mkEvent page_a (Visited []);
      mkEvent page_b (Visited [(page_a, 0.9%float); (page_b, 0.8%float)]);
      mkEvent page_b Skipped ]
  /\ iteration_of insertion_order scraper_three_pages (fst before) (snd before)
     = Some (mkEvent page_b (Visited [(page_a, 0.9%float); (page_b, 0.8%float)]),
             fst after, snd after)
  /\ all_links_with_scores (fst before) = [(page_a, 0.9%float); (page_b, 0.8%float)]
  /\ all_links_with_scores (fst after) = all_links_with_scores (fst before)
  /\ newly_reported_spec (all_links_with_scores (fst after))
                         (all_links_with_scores (fst before)) = []
  /\ url_queue (fst before) = [ScoredURL.mk page_b (_calculate_final_score 0.8 0.3)]
  /\ url_queue (fst after) = [ScoredURL.mk page_b (_calculate_final_score 0.8 0.3)].
Proof. intros before after. repeat apply conj; vm_compute; reflexivity. Qed.

(** C2 (counterexample): the scraper of page a registers a link and is then
    interrupted ([KeyboardInterrupt] is not an instance of [Exception]).
    The clause [except Exception] does not catch the exception: the loop
    does not proceed to the next pop, page b stays in the frontier, and the
    exception leaves [process]. *)
Lemma C2_base_exception_leaves_process :
  let r := run_of insertion_order scraper_interrupted 20 seed in
  let after_seed := state_after insertion_order scraper_interrupted 1 seed in
  let final := state_after insertion_order scraper_interrupted 2 seed in
  run_script repr str_float unit validate nat (scraper_interrupted (snd after_seed) page_a)
             (set_url_queue unit (fst after_seed)
                [ScoredURL.mk page_b (_calculate_final_score 0.8 0.3)])
  = (BaseExn, snd final, fst final)
  /\ r = Some (BaseExn,
               [mkEvent seed (Visited [(page_a, 0.9%float); (page_b, 0.8%float)]);
                mkEvent page_a Propagated],
               fst final, snd final)
  /\ url_queue (fst final) = [ScoredURL.mk page_b (_calculate_final_score 0.8 0.3)]
  /\ bool_decide (page_a ∈ visited_urls (fst final)) = false
  /\ process UrlLib.urlparse repr str_float insertion_order unit validate nat
             scraper_interrupted 20 (manager seed) 0 = Some BaseExn.
Proof. intros r after_seed final. repeat apply conj; vm_compute; reflexivity. Qed.

(** C2 (witness): the scraper registers two candidates and a link for the
    seed, then raises. *)
Lemma C2_witness :
  let m := start seed in
  let m' := fst (state_after insertion_order scraper_seed_fails 1 seed) in
  (PriorityQueue.get (url_queue m) = Some (ScoredURL.mk seed 1.0, [])
   /\ (seed ∉ visited_urls m)
   /\ run_script repr str_float unit validate nat (scraper_seed_fails 0 seed)
                 (set_url_queue unit m []) = (Exn, 1, m'))
  /\ iteration_of insertion_order scraper_seed_fails m 0
     = Some (mkEvent seed ScraperRaised, m', 1)
  /\ visited_urls m' = visited_urls m
  /\ url_queue m' = [].
Proof.
  intros m m'.
  assert (H1 : PriorityQueue.get (url_queue m) = Some (ScoredURL.mk seed 1.0, []))
    by reflexivity.
  assert (H2 : ScoredURL.url (ScoredURL.mk seed 1.0) ∉ visited_urls m)
    by (apply (bool_decide_eq_false_1 _); vm_compute; reflexivity).
  assert (H3 : run_script repr str_float unit validate nat
                 (scraper_seed_fails 0 (ScoredURL.url (ScoredURL.mk seed 1.0)))
                 (set_url_queue unit m []) = (Exn, 1, m'))
    by (vm_compute; reflexivity).
  destruct (C2_scraper_exception_is_absorbed UrlLib.urlparse repr str_float
              insertion_order unit validate nat scraper_seed_fails
              m 0 (ScoredURL.mk seed 1.0) [] 1 m' H1 H2)
    as (Habsorbed & _).
  destruct (Habsorbed H3) as (Hstep & Hvisited & _ & Hqueue & _).
  repeat apply conj; assumption.
Defined.

(** C3 (witness): "Things to do" is rejected, "Beach" is stored, and the
    registry after a crawl that registered both holds a validated entry. *)
Lemma C3_witness :
  let m := manager seed in
  register_poi repr unit validate m things
  = (Ok "POI validation failed for: ('Things to do', 'Ideas for a day out')", m)
  /\ poi_list (snd (register_poi repr unit validate m beach)) !! "Beach"
     = Some (PoiEntry.mk "A sandy beach" "Beach" None)
  /\ forall name e,
       poi_list (fst (state_after insertion_order scraper_guide 2 seed)) !! name = Some e ->
       validated unit validate name e.
Proof.
  intros m.
  destruct (C3_registry_gate UrlLib.urlparse repr str_float insertion_order
              unit validate nat scraper_guide) as (Hreject & Hstore & Hcrawl).
  split; [|split].
  - exact (proj1 (Hreject m things
                    (PoiValidationResult.mk false "Things to do" "Ideas for a day out" "No")
                    tt eq_refl eq_refl)).
  - exact (proj2 (Hstore m beach
                    (PoiValidationResult.mk true "Beach" "A sandy beach" "Yes")
                    tt eq_refl eq_refl)).
  - apply (Hcrawl seed tt m 0 2
                  (events_after (iterate_of insertion_order scraper_guide 2 (start seed) 0))
                  (fst (state_after insertion_order scraper_guide 2 seed))
                  (snd (state_after insertion_order scraper_guide 2 seed))).
    + reflexivity.
    + vm_compute. reflexivity.
Defined.

(** C4 (counterexample): the path of "https://example.com/" is "/", which has
    no non-empty segment, so the depth the claim names is 0 and the score it
    names 0.0; the code computes depth 1 and returns 0.3. *)
Lemma C4_trailing_slash_counts_as_depth :
  UrlLib.urlparse "https://example.com/"
  = Some (UrlLib.mkParseResult "https" "example.com" "/" "" "" "")
  /\ nonempty_segments "/" = 0
  /\ path_depth "/" = 1%Z
  /\ _calculate_depth_score UrlLib.urlparse "https://example.com/" = Ok 0.3%float
  /\ _calculate_depth_score UrlLib.urlparse "https://example.com/"
     <> Ok (depth_base (nonempty_segments "/")).
Proof.
  repeat apply conj; try (vm_compute; reflexivity).
  intros H.
  apply (f_equal (fun r => match r with
                           | Ok x => PrimFloat.eqb 0.3 x
                           | _ => true
                           end)) in H.
  vm_compute in H. discriminate.
Qed.

(** C4 (witness): a path with two slashes. *)
Lemma C4_witness :
  UrlLib.urlparse "https://example.com/guide/places"
  = Some (UrlLib.mkParseResult "https" "example.com" "/guide/places" "" "" "")
  /\ _calculate_depth_score UrlLib.urlparse "https://example.com/guide/places"
     = Ok 0.5%float.
Proof.
  split; [reflexivity|].
  exact (proj1 (proj2 (C4_depth_score_counts_slashes UrlLib.urlparse
                         "https://example.com/guide/places"
                         (UrlLib.mkParseResult "https" "example.com" "/guide/places" "" "" "")
                         eq_refl))).
Defined.

(** C5 (witness): the seed is taken from between two entries with lower
    scores. *)
Lemma C5_witness :
  let q := [ScoredURL.mk page_a 0.54; ScoredURL.mk seed 1.0; ScoredURL.mk page_b 0.5] in
  In (ScoredURL.mk seed 1.0) q
  /\ exists rest, PriorityQueue.get q = Some (ScoredURL.mk seed 1.0, rest).
Proof.
  intros q.
  assert (Hin : In (ScoredURL.mk seed 1.0) q) by (right; left; reflexivity).
  split; [exact Hin|].
  apply (proj1 (proj2 (C5_pop_highest_priority UrlLib.urlparse repr str_float
                         insertion_order unit validate nat scraper_nothing))
               q (ScoredURL.mk seed 1.0) Hin eq_refl).
  intros y [<-|[<-|[<-|[]]]]; [right | left | right]; reflexivity.
Defined.

(** C6 (witness): a link to another host with score 1.0 and depth 1. *)
Lemma C6_witness :
  let m := manager seed in
  (UrlLib.urlparse "https://other.com/x"
   = Some (UrlLib.mkParseResult "https" "other.com" "/x" "" "" "")
   /\ "other.com" <> base_domain m)
  /\ process_new_url UrlLib.urlparse unit m ("https://other.com/x", 1.0%float) = (Ok tt, m).
Proof.
  intros m.
  assert (H : "other.com" <> base_domain m) by (vm_compute; discriminate).
  split; [split; [reflexivity | exact H]|].
  exact (proj1 (C6_other_hosts_never_pushed UrlLib.urlparse repr str_float
                  insertion_order unit validate nat scraper_guide)
               m "https://other.com/x" 1.0%float
               (UrlLib.mkParseResult "https" "other.com" "/x" "" "" "") eq_refl H).
Defined.



(** C8 (counterexample): page a reports a malformed link, so its iteration
    ends in the exception of [urlparse] after the scraper has returned, and
    page a is not marked visited; page b links back to page a, which is
    scraped again.  The scraper returns three times for page a. *)
Lemma C8_scraper_returns_again_for_a_url :
  let es := events_of (run_of insertion_order scraper_malformed_link 20 seed) in
  map (fun e => (ev_url e, scraper_returned e, completed e)) es
  = [ (seed, true, true); (page_a, true, false); (page_b, true, true);
      (page_a, true, false); (page_b, false, false); (page_a, true, true);
      (page_a, false, false); (page_a, false, false) ]
  /\ ~ List.NoDup (map ev_url (List.filter scraper_returned es)).
Proof.
  intros es. split; [vm_compute; reflexivity|].
  intros H. vm_compute in H.
  apply NoDup_cons_iff in H. destruct H as [_ H].
  apply NoDup_cons_iff in H. destruct H as [H _].
  apply H. right. left. reflexivity.
Qed.

(** C8 (witness): in the same crawl, no URL completes twice. *)
Lemma C8_witness :
  let r := run_of insertion_order scraper_malformed_link 20 seed in
  let final := state_after insertion_order scraper_malformed_link 8 seed in
  r = Some (Ok tt, events_of r, fst final, snd final)
  /\ List.NoDup (map ev_url (List.filter completed (events_of r))).
Proof.
  intros r final.
  assert (H : r = Some (Ok tt, events_of r, fst final, snd final))
    by (vm_compute; reflexivity).
  split; [exact H|].
  exact (proj2 (proj2 (proj2 (C8_visited_url_is_skipped UrlLib.urlparse repr
                                str_float insertion_order unit validate nat
                                scraper_malformed_link))
                      20 (manager seed) 0 (Ok tt) (events_of r) (fst final) (snd final) H)).
Defined.

(** C9 (witness): a seed page without links or POIs. *)
Lemma C9_witness :
  (init UrlLib.urlparse unit seed tt = Ok (manager seed)
   /\ scraper_nothing 0 seed = Return 1)
  /\ run_of insertion_order scraper_nothing 2 seed
     = Some (Ok tt, [mkEvent seed (Visited [])],
             fst (state_after insertion_order scraper_nothing 1 seed), 1)
  /\ process UrlLib.urlparse repr str_float insertion_order unit validate nat
             scraper_nothing 2 (manager seed) 0 = Some (Ok ∅).
Proof.
  split; [split; reflexivity|].
  destruct (C9_seed_without_links UrlLib.urlparse repr str_float insertion_order
              insertion_order_perm unit validate nat scraper_nothing
              seed tt (manager seed) 0 1 2 eq_refl eq_refl (le_n 2))
    as (m' & Hrun & _ & _ & Hresult).
  split; [|exact Hresult]. vm_compute. reflexivity.
Defined.

(** C10 (counterexample), in three crawls.
    First: page a reports the link to page b with the score the seed has
    reported it with, and raises; the next iteration completes without an
    exception, and its set of newly reported links is empty.
    Second: page a reports page c and raises; the scraper returns for page
    b, whose iteration replaces the snapshot and then raises on a malformed
    link; the next iteration without an exception is page d's, whose newly
    reported set does not hold the pair of page c.  Here the set of page b
    is enumerated with the malformed link first, so page c is never pushed
    nor popped.
    Third: the second crawl with the sets enumerated the other way round;
    page c is pushed before the exception, and the next iteration without
    an exception, page c's own, does not hold the pair either. *)
Lemma C10_reported_pair_is_not_considered :
  (let es := events_of (run_of insertion_order scraper_repeats_link 20 seed) in
   let s1 := state_after insertion_order scraper_repeats_link 1 seed in
   let s2 := state_after insertion_order scraper_repeats_link 2 seed in
   es = [ mkEvent seed (Visited [(page_a, 0.9%float); (page_b, 0.8%float)]);
          mkEvent page_a ScraperRaised;
          mkEvent page_b (Visited []) ]
   /\ all_links_with_scores (fst s2)
      = all_links_with_scores (fst s1) ++ [(page_b, 0.8%float)]
   /\ link_mem (page_b, 0.8%float) [] = false)
  /\ (let es := events_of (run_of reverse_order scraper_lost_link 20 seed) in
      let s1 := state_after reverse_order scraper_lost_link 1 seed in
      let s2 := state_after reverse_order scraper_lost_link 2 seed in
      let first := [(page_d, 0.7%float); (page_b, 0.8%float); (page_a, 0.9%float)] in
      es = [ mkEvent seed (Visited first);
             mkEvent page_a ScraperRaised;
             mkEvent page_b (LinksRaised [(bad_url, 0.9%float); (page_c, 0.9%float)]);
             mkEvent page_d (Visited first);
             mkEvent page_a ScraperRaised;
             mkEvent page_b (LinksRaised [(bad_url, 0.9%float); (page_c, 0.9%float)]);
             mkEvent page_d Skipped ]
      /\ all_links_with_scores (fst s2)
         = all_links_with_scores (fst s1) ++ [(page_c, 0.9%float)]
      /\ link_mem (page_c, 0.9%float) first = false
      /\ existsb (fun e => String.eqb (ev_url e) page_c) es = false)
  /\ (let es := events_of (run_of insertion_order scraper_lost_link 20 seed) in
      let s1 := state_after insertion_order scraper_lost_link 1 seed in
      let s2 := state_after insertion_order scraper_lost_link 2 seed in
      let first := [(page_a, 0.9%float); (page_b, 0.8%float); (page_d, 0.7%float)] in
      firstn 4 es
      = [ mkEvent seed (Visited first);
          mkEvent page_a ScraperRaised;
          mkEvent page_b (LinksRaised [(page_c, 0.9%float); (bad_url, 0.9%float)]);
          mkEvent page_c (Visited first) ]
      /\ all_links_with_scores (fst s2)
         = all_links_with_scores (fst s1) ++ [(page_c, 0.9%float)]
      /\ link_mem (page_c, 0.9%float) first = false).
Proof. repeat apply conj; intros; repeat apply conj; vm_compute; reflexivity. Qed.

(** C10 (witness): page a reports page c and raises; the next iteration, for
    page b, completes, considers the pair of page c and pushes page c. *)
Lemma C10_witness :
  let s1 := state_after insertion_order scraper_recovered_link 1 seed in
  let s2 := state_after insertion_order scraper_recovered_link 2 seed in
  let s3 := state_after insertion_order scraper_recovered_link 3 seed in
  let entry := ScoredURL.mk page_a (_calculate_final_score 0.9 0.3) in
  let q := [ScoredURL.mk page_b (_calculate_final_score 0.8 0.3)] in
  (PriorityQueue.get (url_queue (fst s1)) = Some (entry, q)
   /\ iteration_of insertion_order scraper_recovered_link (fst s1) (snd s1)
      = Some (mkEvent page_a ScraperRaised, fst s2, snd s2)
   /\ iteration_of insertion_order scraper_recovered_link (fst s2) (snd s2)
      = Some (mkEvent page_b (Visited [(page_c, 0.9%float)]), fst s3, snd s3)
   /\ registered_links repr str_float unit validate nat
        (scraper_recovered_link (snd s1) page_a) (set_url_queue unit (fst s1) q)
      = [(page_c, 0.9%float)])
  /\ all_links_with_scores (fst s2)
     = all_links_with_scores (fst s1) ++ [(page_c, 0.9%float)]
  /\ In (ScoredURL.mk page_c (_calculate_final_score 0.9 0.3)) (url_queue (fst s3)).
Proof.
  intros s1 s2 s3 entry q.
  assert (Hget : PriorityQueue.get (url_queue (fst s1)) = Some (entry, q))
    by (vm_compute; reflexivity).
  assert (H1 : iteration_of insertion_order scraper_recovered_link (fst s1) (snd s1)
               = Some (mkEvent (ScoredURL.url entry) ScraperRaised, fst s2, snd s2))
    by (vm_compute; reflexivity).
  assert (H3 : iteration_of insertion_order scraper_recovered_link (fst s2) (snd s2)
               = Some (mkEvent page_b (Visited [(page_c, 0.9%float)]), fst s3, snd s3))
    by (vm_compute; reflexivity).
  assert (Hcalls : registered_links repr str_float unit validate nat
                     (scraper_recovered_link (snd s1) (ScoredURL.url entry))
                     (set_url_queue unit (fst s1) q)
                   = [(page_c, 0.9%float)])
    by (vm_compute; reflexivity).
  assert (Hnan : forall l,
            In l (all_links_with_scores (fst s3)
                  ++ _current_url_links_with_scores (fst s1)) ->
            is_nan (snd l) = false).
  { intros l Hl. vm_compute in Hl.
    repeat (destruct Hl as [<-|Hl]; [reflexivity|]). destruct Hl. }
  split; [repeat apply conj; assumption|].
  destruct (C10_links_of_a_failed_page UrlLib.urlparse repr str_float insertion_order
              insertion_order_perm unit validate nat scraper_recovered_link
              (fst s1) (snd s1) entry q (fst s2) (snd s2) 0 [] (fst s2) (snd s2)
              (mkEvent page_b (Visited [(page_c, 0.9%float)])) (fst s3) (snd s3)
              [(page_c, 0.9%float)] Hget H1 eq_refl
              (fun e (H : In e []) => match H with end)
              H3 (or_intror eq_refl) Hnan)
    as (_ & Hrep & _ & Hconsidered).
  rewrite Hcalls in Hrep, Hconsidered.
  split; [exact Hrep|].
  destruct (Hconsidered (page_c, 0.9%float)) as (q' & Hq' & _ & Hpushed);
    [now left | vm_compute; reflexivity |].
  destruct Hq' as [<-|[]]. apply (Hpushed eq_refl). vm_compute. left. reflexivity.
Defined.

(* ===================================================================== *)
(** * Further properties on concrete crawls *)
(* ===================================================================== *)

(** X2 (witness): the crawl of three pages, after its four iterations. *)
Lemma X2_witness :
  let es := events_of (run_of insertion_order scraper_three_pages 10 seed) in
  let final := state_after insertion_order scraper_three_pages 4 seed in
  iterate_of insertion_order scraper_three_pages 4 (start seed) 0
  = Some (es, fst final, snd final)
  /\ (page_b ∈ visited_urls (fst final)
      <-> page_b ∈ visited_urls (start seed)
          \/ exists e, In e es /\ completed e = true /\ ev_url e = page_b).
Proof.
  intros es final.
  assert (H : iterate_of insertion_order scraper_three_pages 4 (start seed) 0
              = Some (es, fst final, snd final)) by (vm_compute; reflexivity).
  split; [exact H|].
  exact (X2_visited_are_completed UrlLib.urlparse repr str_float insertion_order
           unit validate nat scraper_three_pages 4 (start seed) 0 es
           (fst final) (snd final) H page_b).
Defined.

(** X3 (witness): after the seed's iteration of the crawl of three pages,
    the entry of page a comes from the pair the seed reported. *)
Lemma X3_witness :
  let after := state_after insertion_order scraper_three_pages 1 seed in
  let e := ScoredURL.mk page_a (_calculate_final_score 0.9 0.3) in
  (init UrlLib.urlparse unit seed tt = Ok (manager seed) /\ In e (url_queue (fst after)))
  /\ (e = ScoredURL.mk seed 1.0
      \/ exists ai parsed,
           In (ScoredURL.url e, ai) (all_links_with_scores (fst after))
           /\ PrimFloat.ltb ai 0.5 = false
           /\ UrlLib.urlparse (ScoredURL.url e) = Some parsed
           /\ UrlLib.netloc parsed = base_domain (manager seed)
           /\ ScoredURL.score e
              = _calculate_final_score ai
                  (depth_score_of (path_depth (UrlLib.path parsed)))).
Proof.
  intros after e.
  assert (Hin : In e (url_queue (fst after))) by (vm_compute; left; reflexivity).
  split; [split; [reflexivity | exact Hin]|].
  apply (X3_frontier_comes_from_log UrlLib.urlparse repr str_float insertion_order
           insertion_order_perm unit validate nat scraper_three_pages
           seed tt (manager seed) 0 1
           (events_after (iterate_of insertion_order scraper_three_pages 1 (start seed) 0))
           (fst after) (snd after) eq_refl).
  - vm_compute. reflexivity.
  - exact Hin.
Defined.

(** X4 (witness): the crawl of the guide page, which reports a link to
    another host. *)
Lemma X4_witness :
  let es := events_of (run_of insertion_order scraper_guide 10 seed) in
  let final := state_after insertion_order scraper_guide 2 seed in
  iterate_of insertion_order scraper_guide 2 (start seed) 0
  = Some (es, fst final, snd final)
  /\ (forall e, In e es ->
        exists parsed, UrlLib.urlparse (ev_url e) = Some parsed
                       /\ UrlLib.netloc parsed = "example.com")
  /\ (forall e es', es = e :: es' -> ev_url e = seed /\ scraper_invoked e = true).
Proof.
  intros es final.
  assert (H : iterate_of insertion_order scraper_guide 2 (start seed) 0
              = Some (es, fst final, snd final)) by (vm_compute; reflexivity).
  split; [exact H|].
  exact (X4_scraper_stays_on_seed_host UrlLib.urlparse repr str_float insertion_order
           unit validate nat scraper_guide seed tt (manager seed)
           (UrlLib.mkParseResult "https" "example.com" "" "" "" "")
           0 2 es (fst final) (snd final) eq_refl eq_refl H).
Defined.

(** X5 (witness): a list with a malformed link in the middle. *)
Lemma X5_witness :
  let m := manager seed in
  let links := [(page_a, 0.9%float); (bad_url, 0.9%float); (page_b, 0.8%float)] in
  fst (for_each_new_url UrlLib.urlparse unit links m) = Exn
  /\ url_queue (snd (for_each_new_url UrlLib.urlparse unit links m))
     = [ScoredURL.mk page_a (_calculate_final_score 0.9 0.3)].
Proof.
  intros m links.
  destruct (X5_new_urls_stop_at_first_unparsable UrlLib.urlparse unit m links)
    as (Hiff & _).
  split.
  - apply Hiff. exists (bad_url, 0.9%float). split; [right; left; reflexivity|].
    split; [reflexivity|]. split; [|reflexivity].
    apply (bool_decide_eq_false_1 _). vm_compute. reflexivity.
  - vm_compute. reflexivity.
Defined.

(** X6 (witness): the iteration of page a in the crawl with the malformed
    link. *)
Lemma X6_witness :
  let before := state_after insertion_order scraper_malformed_link 1 seed in
  let after := state_after insertion_order scraper_malformed_link 2 seed in
  let e := mkEvent page_a (LinksRaised [(bad_url, 0.9%float)]) in
  iteration_of insertion_order scraper_malformed_link (fst before) (snd before)
  = Some (e, fst after, snd after)
  /\ visited_urls (fst after) = visited_urls (fst before)
  /\ (page_a ∉ visited_urls (fst after))
  /\ _current_url_links_with_scores (fst after) = [(bad_url, 0.9%float)].
Proof.
  intros before after e.
  assert (H : iteration_of insertion_order scraper_malformed_link (fst before) (snd before)
              = Some (e, fst after, snd after)) by (vm_compute; reflexivity).
  split; [exact H|].
  destruct (X6_link_exception_keeps_partial_work UrlLib.urlparse repr str_float
              insertion_order unit validate nat scraper_malformed_link
              (fst before) (snd before) e (fst after) (snd after)
              [(bad_url, 0.9%float)] H eq_refl) as (H1 & H2 & H3 & _).
  repeat apply conj; assumption.
Defined.


(** X9 (witness): a path with one slash and a path with two. *)
Lemma X9_witness :
  (Py.count "/" "/a" <= Py.count "/" "/guide/places")%nat
  /\ exists d1 d2,
       _calculate_depth_score UrlLib.urlparse page_a = Ok d1
       /\ _calculate_depth_score UrlLib.urlparse "https://example.com/guide/places" = Ok d2
       /\ PrimFloat.leb d1 d2 = true
       /\ PrimFloat.leb 0 d1 = true
       /\ PrimFloat.leb d2 0.9 = true.
Proof.
  assert (H : (Py.count "/" "/a" <= Py.count "/" "/guide/places")%nat)
    by (vm_compute; repeat constructor).
  split; [exact H|].
  exact (X9_depth_score_is_monotone UrlLib.urlparse page_a
           "https://example.com/guide/places"
           (UrlLib.mkParseResult "https" "example.com" "/a" "" "" "")
           (UrlLib.mkParseResult "https" "example.com" "/guide/places" "" "" "")
           eq_refl eq_refl H).
Defined.

(** X10 (witness): the agent answers "Yes". *)
Lemma X10_witness :
  let verdict := PoiValidationResult.mk true "Beach" "A sandy beach" "Yes" in
  ValidatePoiAgent.validate _ ValidatePoiAgent.canned_chat [ValidatePoiAgent.chat_yes]
    "Beach" "A sandy beach" "Beach" None = (Ok verdict, [])
  /\ (PoiValidationResult.is_valid verdict = true
      <-> In (PoiValidationResult.raw_response verdict) ValidatePoiAgent.yes_replies).
Proof.
  intros verdict.
  assert (H : ValidatePoiAgent.validate _ ValidatePoiAgent.canned_chat [ValidatePoiAgent.chat_yes]
                "Beach" "A sandy beach" "Beach" None = (Ok verdict, []))
    by reflexivity.
  split; [exact H|].
  exact (proj1 (X10_validate_accepts_only_a_bare_yes _ ValidatePoiAgent.canned_chat
                  [ValidatePoiAgent.chat_yes] "Beach" "A sandy beach" "Beach" None verdict [] H)).
Defined.

(** The agent's wordy answer is not a confirmation, and a chat without
    messages makes [validate] raise. *)
Example validate_wordy_answer :
  fst (ValidatePoiAgent.validate _ ValidatePoiAgent.canned_chat [ValidatePoiAgent.chat_wordy]
         "Beach" "A sandy beach" "Beach" None)
  = Ok (PoiValidationResult.mk false "Beach" "A sandy beach" "Yes, it is.")
  /\ fst (ValidatePoiAgent.validate _ ValidatePoiAgent.canned_chat [[]]
            "Beach" "A sandy beach" "Beach" None) = Exn.
Proof. split; reflexivity. Qed.

(** X13 (witness): a chat that ends in an answer. *)
Lemma X13_witness :
  exists content answer,
    last WebSurfer.chat_answer = Some (Chat.Text content)
    /\ WebSurfer.contains_str "TERMINATE" content = false
    /\ WebSurfer.canned_parse content = inl answer
    /\ WebSurfer._get_answer string WebSurfer.canned_parse WebSurfer.chat_answer = Ok answer
    /\ forall stored,
         WebSurfer.is_termination_msg string WebSurfer.canned_parse "Invalid JSON" stored
           (Chat.Text content) = (true, stored).
Proof.
  exact (X13_accepted_chat_ends_in_an_answer string WebSurfer.canned_parse "Invalid JSON" "{}"
           "" WebSurfer.chat_answer eq_refl).
Defined.

(** X14 (witness): the retry prompt after one message. *)
Lemma X14_witness :
  let prompt := WebSurfer.error_message "{}" "Invalid JSON" in
  (forall stored,
     WebSurfer.is_termination_msg string WebSurfer.canned_parse "Invalid JSON" stored
       (Chat.Text prompt) = (true, stored))
  /\ (forall stored,
        WebSurfer._get_error_message string WebSurfer.canned_parse "{}" stored
          ([Chat.Text "Collect the data"] ++ [Chat.Text prompt])
        = Ok (Some (WebSurfer.error_message "{}" stored))).
Proof.
  exact (X14_retry_prompt_is_a_termination_message string WebSurfer.canned_parse "Invalid JSON"
           "{}" "Invalid JSON" [Chat.Text "Collect the data"] [Some "Collect the data"] eq_refl).
Defined.

(** X15 (witness): the first chat ends with TERMINATE, the retry with an
    answer. *)
Lemma X15_witness :
  let prompt := WebSurfer.error_message "{}" "Invalid JSON" in
  let calls := [WebSurfer.mkCall true "Collect the data" (Ok WebSurfer.chat_terminate);
                WebSurfer.mkCall false prompt (Ok WebSurfer.chat_answer)] in
  let answer := WebSurfer.mkAnswer string "task" true "{ok}" [] in
  WebSurfer.canned_loop 5 [WebSurfer.chat_terminate; WebSurfer.chat_answer]
    "Collect the data" true = Some (Ok answer, [], calls)
  /\ exists earlier final rest,
       calls = earlier ++ [final]
       /\ length calls <= 5
       /\ calls = WebSurfer.mkCall true "Collect the data"
                    (WebSurfer.call_history (hd final calls)) :: rest
       /\ Forall (fun c => WebSurfer.call_clear_history c = false
                           /\ exists e, WebSurfer.call_message c = WebSurfer.error_message "{}" e)
            rest
       /\ Forall (fun c => exists h e,
                    WebSurfer.call_history c = Ok h
                    /\ WebSurfer._get_error_message string WebSurfer.canned_parse "{}" e h
                       = Ok (Some (WebSurfer.error_message "{}" e))) earlier
       /\ exists h, WebSurfer.call_history final = Ok h
                    /\ WebSurfer._get_answer string WebSurfer.canned_parse h = Ok answer
                    /\ forall e, WebSurfer._get_error_message string WebSurfer.canned_parse
                                   "{}" e h = Ok None.
Proof.
  intros prompt calls answer.
  assert (H : WebSurfer.canned_loop 5 [WebSurfer.chat_terminate; WebSurfer.chat_answer]
                "Collect the data" true = Some (Ok answer, [], calls))
    by (vm_compute; reflexivity).
  split; [exact H|].
  exact (X15_chat_loop_retries_until_an_answer string WebSurfer.canned_parse "{}"
           (list (list Chat.Content)) WebSurfer.canned_chat (fun _ => "Invalid JSON")
           5 _ _ _ _ _ _ H).
Defined.

(** ** A crawl that does not end *)

Lemma levels_snoc k : levels k +:+ "/x" = levels (S k).
Proof.
  induction k as [|k IH]; [reflexivity|].
  change (levels (S k) +:+ "/x") with ("/x" +:+ (levels k +:+ "/x")). now rewrite IH.
Qed.

Lemma below_seed_next k : below_seed k +:+ "/x" = below_seed (S k).
Proof. unfold below_seed. now rewrite str_append_assoc, levels_snoc. Qed.

Lemma filter_levels p k :
  p "/"%char = true -> p "x"%char = true -> Py.filter p (levels k) = levels k.
Proof.
  intros H1 H2. induction k as [|k IH]; [reflexivity|].
  change (levels (S k)) with (String "/" (String "x" (levels k))).
  cbn [Py.filter]. now rewrite H1, H2, IH.
Qed.

Lemma contains_levels c k :
  Ascii.eqb "/" c = false -> Ascii.eqb "x" c = false -> Py.contains c (levels k) = false.
Proof.
  intros H1 H2. induction k as [|k IH]; [reflexivity|].
  change (levels (S k)) with (String "/" (String "x" (levels k))).
  cbn [Py.contains]. now rewrite H1, H2, IH.
Qed.

Lemma break_levels k : Py.break UrlLib.netloc_delim (levels k) = (EmptyString, levels k).
Proof. destruct k; reflexivity. Qed.

Lemma filter_append p a b : Py.filter p (a +:+ b) = Py.filter p a +:+ Py.filter p b.
Proof.
  induction a as [|c a IH]; [reflexivity|].
  change (String c a +:+ b) with (String c (a +:+ b)). cbn [Py.filter].
  rewrite IH. now destruct (p c).
Qed.

Lemma urlparse_below_seed k :
  UrlLib.urlparse (below_seed k)
  = Some (UrlLib.mkParseResult "https" "example.com" (levels k) "" "" "").
Proof.
  unfold UrlLib.urlparse, below_seed.
  change (Py.lstrip UrlLib.c0_control_or_space (seed +:+ levels k)) with (seed +:+ levels k).
  rewrite filter_append, filter_levels by reflexivity.
  change (Py.filter (fun a => negb (UrlLib.unsafe_byte a)) seed) with seed.
  change (UrlLib.split_scheme (seed +:+ levels k))
    with (Some ("https", "//example.com" +:+ levels k)).
  cbv beta iota.
  change ("//example.com" +:+ levels k) with (String "/" (String "/" ("example.com" +:+ levels k))).
  cbv beta iota.
  replace (Py.break UrlLib.netloc_delim ("example.com" +:+ levels k))
    with ("example.com", levels k) by (destruct k; reflexivity).
  cbv beta iota.
  change (UrlLib.unbalanced_brackets "example.com") with false. cbv beta iota.
  rewrite !contains_levels by reflexivity.
  rewrite andb_false_r. reflexivity.
Qed.

Lemma levels_inj j : forall k, levels j = levels k -> j = k.
Proof.
  induction j as [|j IH]; intros [|k] H; try reflexivity; try discriminate.
  f_equal. apply IH. simpl in H. now injection H.
Qed.

Lemma below_seed_inj j k : below_seed j = below_seed k -> j = k.
Proof.
  unfold below_seed, seed. intros H. simpl in H. apply levels_inj. now injection H.
Qed.

(** The crawl of the endless site keeps its invariant: an iteration either
    skips a visited page or completes the deepest page reached and queues
    the next one. *)
Section Endless.

Variable order : list Link -> list Link.
Hypothesis order_perm : forall s, Permutation (order s) s.

Lemma endless_step k (m : PoiManager unit) s :
  endless_inv k m ->
  exists e m' s',
    iteration UrlLib.urlparse repr str_float order unit validate nat scraper_endless m s
    = Some (e, m', s')
    /\ propagated e = false
    /\ (endless_inv k m' \/ endless_inv (S k) m').
Proof.
  intros (Idom & Ivis & Iq & (ek & Hek & Uek) & Ilog & Icur).
  destruct (iteration UrlLib.urlparse repr str_float order unit validate nat
              scraper_endless m s) as [[[e m'] s']|] eqn:Hstep.
  2: { apply step_empty in Hstep. rewrite Hstep in Hek. destruct Hek. }
  exists e, m', s'. split; [reflexivity|].
  apply step_inv in Hstep. destruct Hstep as (entry & q & Hget & Hurl & Hcase).
  split.
  { unfold propagated. destruct (ev_outcome e); try reflexivity.
    destruct Hcase as (_ & Hrun). unfold scraper_endless in Hrun. simpl in Hrun.
    discriminate. }
  pose proof (get_perm _ _ _ Hget) as Hperm.
  assert (Hentry : In entry (url_queue m)).
  { apply (Permutation_in entry (Permutation_sym Hperm)). now left. }
  assert (Hq : forall x, In x q -> In x (url_queue m)).
  { intros x Hx. apply (Permutation_in x (Permutation_sym Hperm)). now right. }
  destruct (Iq entry Hentry) as (j & Hj & Uj).
  destruct (ev_outcome e) as [| |new|new|] eqn:Hout.
  5: { destruct Hcase as (_ & Hrun). unfold scraper_endless in Hrun. simpl in Hrun.
       discriminate. }
  - destruct Hcase as (Hv & -> & _). left.
    split; [exact Idom|]. split; [exact Ivis|].
    split; [intros x Hx; apply Iq, Hq, Hx|].
    split; [|split; [exact Ilog | exact Icur]].
    exists ek. split; [|exact Uek].
    apply (Permutation_in ek Hperm) in Hek. destruct Hek as [<-|Hek]; [|exact Hek].
    apply Ivis in Hv. destruct Hv as (j' & Hj' & E). rewrite Uek in E.
    apply below_seed_inj in E. lia.
  - destruct Hcase as (_ & Hrun). unfold scraper_endless in Hrun. simpl in Hrun. discriminate.
  - destruct Hcase as (Hnv & m1 & Hrun & Hnew & Hfor).
    unfold scraper_endless in Hrun. simpl in Hrun. injection Hrun as <- <-.
    apply (f_equal fst) in Hfor. simpl in Hfor.
    apply for_each_raises_iff in Hfor. destruct Hfor as (link & Hin & _ & _ & Hparse).
    simpl in Hparse. subst new. apply newly_reported_in_log in Hin; [|exact order_perm].
    simpl in Hin. apply in_app_iff in Hin. destruct Hin as [Hin|[<-|[]]].
    + destruct (Ilog link Hin) as (j' & _ & E). rewrite E, urlparse_below_seed in Hparse.
      discriminate.
    + simpl in Hparse. rewrite Uj, below_seed_next, urlparse_below_seed in Hparse.
      discriminate.
  - destruct Hcase as (Hnv & m1 & m2 & Hrun & Hnew & Hfor & ->).
    unfold scraper_endless in Hrun. simpl in Hrun. injection Hrun as <- <-.
    apply for_each_ok in Hfor. subst m2.
    assert (j = k) as ->.
    { destruct (Nat.eq_dec j k) as [E|E]; [exact E|]. exfalso. apply Hnv. apply Ivis.
      exists j. split; [lia | exact Uj]. }
    rewrite Uj, below_seed_next in *.
    set (p := (below_seed (S k), 1.0%float)) in *.
    set (log1 := (all_links_with_scores m ++ [p])%list) in *.
    assert (Hlog1 : forall l, In l log1 -> exists j, 1 <= j <= S k /\ fst l = below_seed j).
    { intros l Hl. apply in_app_iff in Hl. destruct Hl as [Hl|[<-|[]]].
      - destruct (Ilog l Hl) as (j' & Hj' & E). exists j'. split; [lia | exact E].
      - exists (S k). split; [lia | reflexivity]. }
    assert (Hnewlog : forall l, In l new -> In l log1).
    { intros l Hl. subst new. apply newly_reported_in_log in Hl; [exact Hl | exact order_perm]. }
    right. unfold endless_inv. cbn -[union singleton elem_of below_seed levels].
    split; [exact Idom|].
    split.
    { intros u. rewrite elem_of_union, elem_of_singleton, Ivis. split.
      - intros [->|(j' & Hj' & ->)]; [exists k | exists j']; split; (lia || reflexivity).
      - intros (j' & Hj' & ->). destruct (Nat.eq_dec j' k) as [->|E]; [now left|].
        right. exists j'. split; [lia | reflexivity]. }
    split.
    { intros x Hx. apply in_app_iff in Hx. destruct Hx as [Hx|Hx].
      - destruct (Iq x (Hq x Hx)) as (j' & Hj' & E). exists j'. split; [lia | exact E].
      - apply in_flat_map in Hx. destruct Hx as (l & Hl & Hx).
        apply entries_for_inv in Hx. destruct Hx as (_ & _ & parsed & _ & _ & ->). simpl.
        destruct (Hlog1 l (Hnewlog l Hl)) as (j' & Hj' & E). exists j'. split; [lia | exact E]. }
    split.
    { exists (ScoredURL.mk (below_seed (S k))
                (_calculate_final_score 1.0
                   (depth_score_of (path_depth (levels (S k)))))).
      split; [|reflexivity]. apply in_app_iff. right. apply in_flat_map.
      exists p. split.
      - assert (Hmem : link_mem p (_current_url_links_with_scores m) = false).
        { destruct (link_mem p _) eqn:E; [|reflexivity]. exfalso.
          apply existsb_exists in E. destruct E as (c & Hc & E).
          apply andb_true_iff in E. destruct E as [E _]. apply String.eqb_eq in E.
          simpl in E. destruct (Ilog c (Icur c Hc)) as (j' & Hj' & E').
          rewrite E' in E. apply below_seed_inj in E. lia. }
        destruct (set_difference_complete log1 (_current_url_links_with_scores m) p)
          as (q' & Hq' & Hpq); [apply in_app_iff; right; now left | exact Hmem |].
        assert (q' = p) as ->.
        { assert (Hf : fst q' = below_seed (S k)).
          { destruct Hpq as [->|Hpq]; [reflexivity|].
            apply andb_true_iff in Hpq. destruct Hpq as [E _]. apply String.eqb_eq in E.
            now rewrite <- E. }
          assert (Hin : In q' log1).
          { apply filter_In in Hq'. destruct Hq' as [Hq' _]. now apply py_set_incl. }
          apply in_app_iff in Hin. destruct Hin as [Hin|[<-|[]]]; [|reflexivity].
          destruct (Ilog q' Hin) as (j' & Hj' & E'). rewrite E' in Hf.
          apply below_seed_inj in Hf. lia. }
        subst new. unfold new_links. simpl.
        apply (Permutation_in p (Permutation_sym (order_perm _))). exact Hq'.
      - unfold pushed_for. simpl.
        change (PrimFloat.ltb 1 0.5) with false. cbv beta iota.
        rewrite bool_decide_eq_false_2.
        2: { intros Hv. apply Ivis in Hv. destruct Hv as (j' & Hj' & E).
             apply below_seed_inj in E. lia. }
        rewrite urlparse_below_seed. simpl. rewrite Idom. simpl. now left. }
    split; [exact Hlog1 | exact Hnewlog].
Qed.

Lemma endless_crawl fuel : forall k (m : PoiManager unit) s,
  endless_inv k m ->
  crawl UrlLib.urlparse repr str_float order unit validate nat scraper_endless fuel m s = None.
Proof.
  induction fuel as [|fuel IH]; intros k m s Hinv; [reflexivity|].
  destruct (endless_step k m s Hinv) as (e & m' & s' & Hstep & Hnp & Hinv').
  simpl. rewrite Hstep, Hnp.
  destruct Hinv' as [H|H]; now rewrite (IH _ _ _ H).
Qed.

Lemma endless_start : endless_inv 0 (start seed).
Proof.
  split; [reflexivity|].
  split.
  { intros u. split; [intros H; now apply elem_of_empty in H | intros (j & Hj & _); lia]. }
  split.
  { intros e [<-|[]]. exists 0. split; [lia | reflexivity]. }
  split.
  { eexists. split; [now left | reflexivity]. }
  split; intros l [].
Qed.

(** X18: [process] has no bound on the crawl.  On a site whose every page
    reports, with score 1.0, a link to a page one level below itself, each
    completed page puts a new unvisited URL of the seed's host in the
    frontier, so the queue is never empty at the loop test and [process]
    does not return, in whatever order the sets are enumerated. *)
Theorem X18_process_need_not_return fuel :
  run UrlLib.urlparse repr str_float order unit validate nat scraper_endless
      fuel (manager seed) 0 = None.
Proof. unfold run. apply (endless_crawl fuel 0). exact endless_start. Qed.

End Endless.

(** X18 (witness): the sets enumerated in insertion order. *)
Lemma X18_witness :
  run UrlLib.urlparse repr str_float insertion_order unit validate nat scraper_endless
      50 (manager seed) 0 = None.
Proof. exact (X18_process_need_not_return insertion_order insertion_order_perm 50). Defined.

(** X17 (witness): [process] called again after the crawl of three pages. *)
Lemma X17_witness :
  let es := events_of (run_of insertion_order scraper_three_pages 10 seed) in
  let final := state_after insertion_order scraper_three_pages 4 seed in
  (run UrlLib.urlparse repr str_float insertion_order unit validate nat scraper_three_pages
       10 (manager seed) 0 = Some (Ok tt, es, fst final, snd final)
   /\ base_url (manager seed) ∈ visited_urls (fst final))
  /\ run UrlLib.urlparse repr str_float insertion_order unit validate nat scraper_three_pages
         2 (fst final) (snd final)
     = Some (Ok tt, [mkEvent (base_url (manager seed)) Skipped], fst final, snd final)
  /\ process UrlLib.urlparse repr str_float insertion_order unit validate nat
       scraper_three_pages 2 (fst final) (snd final) = Some (Ok (poi_list (fst final))).
Proof.
  intros es final.
  assert (H1 : run UrlLib.urlparse repr str_float insertion_order unit validate nat
                 scraper_three_pages 10 (manager seed) 0
               = Some (Ok tt, es, fst final, snd final))
    by (vm_compute; reflexivity).
  assert (H2 : base_url (manager seed) ∈ visited_urls (fst final))
    by (apply (bool_decide_eq_true_1 _); vm_compute; reflexivity).
  split; [split; [exact H1 | exact H2]|].
  exact (X17_second_process_only_skips_the_seed UrlLib.urlparse repr str_float insertion_order
           unit validate nat scraper_three_pages 10 (manager seed) 0 es
           (fst final) (snd final) 2 H1 H2 (le_n 2)).
Defined.

